(** * Commit-history ingestor and summarizer: a shallow embedding

    The repository holds two batch scripts.  The ingestor reads an export of
    repositories, normalises each line with [cleanRepoUrl] and
    [cleanEcosystemName], fetches the recent commits of every repository not
    yet present in the output file and rewrites that file after each
    successful fetch.  The summarizer ([summarizeData]) folds the ingestor's
    output into a per-day and a per-ecosystem count.

    Conventions of the embedding:
    - a JavaScript string is a [string]; each character stands for one code
      unit in the Latin-1 range;
    - a JavaScript number that counts something is an [N];
    - an object used as a dictionary is a [gmap] of its own properties,
      looked up through [Object.prototype] the way property access does;
    - calls that leave the program (the URL and Date classes of the platform,
      the commit-listing API) are parameters of the functions that make them;
    - the file system and the console appear as the list of effects a run
      performs, in program order. *)

From Stdlib Require Import String Ascii NArith List Bool Arith Lia DecimalString.
From stdpp Require Import gmap strings list fin_maps.

Open Scope string_scope.
Open Scope list_scope.
Open Scope stdpp_scope.

(** ** String primitives of the platform *)

Module Js.

(** Code units that [String.prototype.trim] removes (WhiteSpace and
    LineTerminator, restricted to Latin-1): TAB, LF, VT, FF, CR, SP, NBSP. *)
Definition is_white_space (c : ascii) : bool :=
  match nat_of_ascii c with
  | 9 | 10 | 11 | 12 | 13 | 32 | 160 => true
  | _ => false
  end.

(** Code units the regular-expression atom [.] refuses: LF and CR. *)
Definition is_line_terminator (c : ascii) : bool :=
  match nat_of_ascii c with
  | 10 | 13 => true
  | _ => false
  end.

Fixpoint trimStart (s : string) : string :=
  match s with
  | String c r => if is_white_space c then trimStart r else s
  | EmptyString => EmptyString
  end.

Fixpoint trimEnd (s : string) : string :=
  match s with
  | EmptyString => EmptyString
  | String c r =>
      match trimEnd r with
      | EmptyString => if is_white_space c then EmptyString else String c EmptyString
      | r' => String c r'
      end
  end.

(** [s.trim()] *)
Definition trim (s : string) : string := trimEnd (trimStart s).

(** [s.substring(1)] *)
Definition substring_1 (s : string) : string :=
  match s with
  | String _ r => r
  | EmptyString => EmptyString
  end.

(** [s.split(sep)] for a non-empty separator.  [split_from sep skip s] scans
    [s] from the left; [skip] counts the code units of a separator that was
    recognised and is still to be passed over.  The head of the result is
    the segment being read. *)
Fixpoint split_from (sep : string) (skip : nat) (s : string) : list string :=
  match s with
  | EmptyString => [EmptyString]
  | String c r =>
      match skip with
      | S k => split_from sep k r
      | O =>
          if String.prefix sep s
          then EmptyString :: split_from sep (String.length sep - 1) r
          else match split_from sep 0 r with
               | seg :: segs => String c seg :: segs
               | [] => [String c EmptyString]
               end
      end
  end.

Definition split (sep s : string) : list string := split_from sep 0 s.

(** [s.replace(/.git$/, '')]: the pattern can only match the last four code
    units, and its first atom is the wildcard, not a literal dot. *)
Fixpoint replace_dot_git_end (s : string) : string :=
  match s with
  | EmptyString => EmptyString
  | String c r =>
      if String.eqb r "git" && negb (is_line_terminator c)
      then EmptyString
      else String c (replace_dot_git_end r)
  end.

(** A decimal digit. *)
Definition is_digit (c : ascii) : bool :=
  (48 <=? nat_of_ascii c)%nat && (nat_of_ascii c <=? 57)%nat.

(** [!s] for a string that may be absent. *)
Definition falsy_string (s : option string) : bool :=
  match s with
  | None => true
  | Some EmptyString => true
  | Some _ => false
  end.

End Js.

(** ** The ingestor's normalisation of an export line *)

(** What [new URL(url)] exposes to the program. *)
Record URL := { hostname : string; pathname : string }.

Record OwnerRepo := { owner : string; repo : string }.

(** [cleanEcosystemName(name)]; [None] is an absent [eco_name]. *)
Definition cleanEcosystemName (name : option string) : string :=
  match name with
  | None => "Unknown"
  | Some EmptyString => "Unknown"
  | Some n => Js.trim (hd EmptyString (Js.split " - " n))
  end.

Section CleanRepoUrl.

(** The platform's URL parser; [None] when the constructor throws. *)
Variable new_URL : string -> option URL.

Definition cleanRepoUrl (url : string) : option OwnerRepo :=
  match new_URL url with
  | None => None
  | Some parsedUrl =>
      if negb (String.eqb (hostname parsedUrl) "github.com") then None
      else
        let pathParts :=
          Js.split "/" (Js.replace_dot_git_end (Js.substring_1 (pathname parsedUrl))) in
        if (2 <=? length pathParts)%nat
        then Some {| owner := nth 0 pathParts EmptyString;
                     repo := nth 1 pathParts EmptyString |}
        else None
  end.

End CleanRepoUrl.

(** ** Records of the persisted collection *)

Record CommitRecord := {
  sha : string;
  author : string;
  date : option string;
  message : string
}.

Record RepoCommitHistory := {
  repository : string;
  ecosystem : string;
  commits : list CommitRecord
}.

(** ** Objects used as dictionaries

    Both aggregations of the summarizer index an object literal by a string.
    Reading [o[key]] finds an own property, or else a property of
    [Object.prototype], or else [undefined]. *)

Module JsObject.

Inductive Inherited :=
| BuiltinFunction (fname : string)
| ProtoAccessor.

Definition builtin_methods : list string :=
  ["hasOwnProperty"; "isPrototypeOf"; "propertyIsEnumerable"; "toLocaleString";
   "toString"; "valueOf"; "__defineGetter__"; "__defineSetter__";
   "__lookupGetter__"; "__lookupSetter__"].

(** The properties of [Object.prototype].  [constructor] is the function
    [Object]; [__proto__] is an accessor that yields the prototype itself. *)
Definition Object_prototype (key : string) : option Inherited :=
  if String.eqb key "__proto__" then Some ProtoAccessor
  else if String.eqb key "constructor" then Some (BuiltinFunction "Object")
  else if existsb (String.eqb key) builtin_methods then Some (BuiltinFunction key)
  else None.

(** String conversion of an inherited value, as [+] performs it. *)
Definition inherited_text (p : Inherited) : string :=
  match p with
  | BuiltinFunction fname => "function " +:+ fname +:+ "() { [native code] }"
  | ProtoAccessor => "[object Object]"
  end.

Inductive Lookup (V : Type) :=
| Own (v : V)
| FromPrototype (p : Inherited)
| Undefined.
Arguments Own {V} v.
Arguments FromPrototype {V} p.
Arguments Undefined {V}.

(** [o[key]] *)
Definition get {V} (o : gmap string V) (key : string) : Lookup V :=
  match o !! key with
  | Some v => Own v
  | None =>
      match Object_prototype key with
      | Some p => FromPrototype p
      | None => Undefined
      end
  end.

(** [o[key] = v] for a primitive [v]: the [__proto__] setter ignores
    primitives; every other key becomes (or stays) an own property. *)
Definition set {V} (o : gmap string V) (key : string) (v : V) : gmap string V :=
  if String.eqb key "__proto__" then o else <[key := v]> o.

End JsObject.

(** Decimal form of a count, as string concatenation produces it. *)
Definition Number_toString (n : N) : string :=
  NilZero.string_of_uint (N.to_uint n).

(** Values held by [commitsByDay]: only numbers are ever stored. *)
Inductive DayCount :=
| Count (n : N)
| CountNaN.

(** Values held by [commitsByEcosystem]: [+=] stores a number or, when its
    left operand is not a number, a string. *)
Inductive EcoTotal :=
| Sum (n : N)
| SumText (s : string)
| SumNaN.

(** [!commitsByDay[date]] *)
Definition day_falsy (l : JsObject.Lookup DayCount) : bool :=
  match l with
  | JsObject.Own (Count n) => N.eqb n 0
  | JsObject.Own CountNaN => true
  | JsObject.FromPrototype _ => false
  | JsObject.Undefined => true
  end.

(** The value [commitsByDay[date]++] stores. *)
Definition day_increment (l : JsObject.Lookup DayCount) : DayCount :=
  match l with
  | JsObject.Own (Count n) => Count (n + 1)
  | JsObject.Own CountNaN => CountNaN
  | JsObject.FromPrototype _ => CountNaN
  | JsObject.Undefined => CountNaN
  end.

(** [!commitsByEcosystem[ecosystem]] *)
Definition eco_falsy (l : JsObject.Lookup EcoTotal) : bool :=
  match l with
  | JsObject.Own (Sum n) => N.eqb n 0
  | JsObject.Own (SumText s) => String.eqb s EmptyString
  | JsObject.Own SumNaN => true
  | JsObject.FromPrototype _ => false
  | JsObject.Undefined => true
  end.

(** The value [commitsByEcosystem[ecosystem] += commitCount] stores. *)
Definition eco_add (l : JsObject.Lookup EcoTotal) (commitCount : N) : EcoTotal :=
  match l with
  | JsObject.Own (Sum n) => Sum (n + commitCount)
  | JsObject.Own (SumText s) => SumText (s +:+ Number_toString commitCount)
  | JsObject.Own SumNaN => SumNaN
  | JsObject.FromPrototype p =>
      SumText (JsObject.inherited_text p +:+ Number_toString commitCount)
  | JsObject.Undefined => SumNaN
  end.

(** ** Exceptions and effects *)

Inductive Exception := RangeError | SyntaxError.

Inductive Result (A : Type) :=
| Ok (a : A)
| Throw (e : Exception).
Arguments Ok {A} a.
Arguments Throw {A} e.

Definition bind {A B} (r : Result A) (k : A -> Result B) : Result B :=
  match r with
  | Ok a => k a
  | Throw e => Throw e
  end.

Notation "x <- r ;; k" := (bind r (fun x => k))
  (at level 100, r at next level, right associativity).

(** [xs.forEach(x => acc = f acc x)] where [f] may throw. *)
Fixpoint forEach {A S} (f : S -> A -> Result S) (xs : list A) (acc : S) : Result S :=
  match xs with
  | [] => Ok acc
  | x :: rest => acc' <- f acc x ;; forEach f rest acc'
  end.

(** What a script hands to [JSON.stringify] before writing a file.  The two
    summary objects are held as finite maps: the keys they have and the value
    under each key, which is what a reader of the file gets back from
    [JSON.parse].  The order in which [JSON.stringify] writes the keys (the
    order in which the script created them) is not part of this value. *)
Inductive Json :=
| JCollection (data : list RepoCommitHistory)
| JDaily (commitsByDay : gmap string DayCount)
| JEcosystem (totals : gmap string EcoTotal) (overallTotal : N).

(** The text of the collection file as [JSON.parse] sees it: the
    serialisation of a collection, which is what the ingestor writes, or text
    the parser rejects.  Text that parses to something else (an object that
    is not an array, [null], an array with an element that is not an entry)
    has no value here: the statements about a file are about these two kinds
    of file. *)
Inductive FileContent :=
| JsonText (data : list RepoCommitHistory)
| Malformed.

Definition JSON_parse (fileContent : FileContent) : Result (list RepoCommitHistory) :=
  match fileContent with
  | JsonText data => Ok data
  | Malformed => Throw SyntaxError
  end.

(** ** The summarizer *)

Module Summarizer.

(** The paths, relative to the directory of the script. *)
Definition INPUT_FILE_PATH : string := "../data/exports_commit_history.json".
Definition DAILY_OUTPUT_PATH : string := "../public/daily_summary.json".
Definition ECO_OUTPUT_PATH : string := "../public/ecosystem_summary.json".

Inductive Effect :=
| ConsoleLog (msg : string)
| ConsoleError (msg : string)
| WriteFileSync (path : string) (data : Json).

(** A run: the effects performed, in order, and how the script ended. *)
Record Run := { effects : list Effect; completion : Result unit }.

Section WithDate.

(** [new Date(d).toISOString()]; [None] when the date is invalid and the
    call throws. *)
Variable Date_toISOString : string -> option string.

(** One pass of the inner callback of the timeline aggregation. *)
Definition countCommit (commitsByDay : gmap string DayCount) (commit : CommitRecord)
  : Result (gmap string DayCount) :=
  if Js.falsy_string (date commit) then Ok commitsByDay
  else
    match Date_toISOString (default EmptyString (date commit)) with
    | None => Throw RangeError
    | Some iso =>
        let date := hd EmptyString (Js.split "T" iso) in
        let o :=
          if day_falsy (JsObject.get commitsByDay date)
          then JsObject.set commitsByDay date (Count 0)
          else commitsByDay in
        Ok (JsObject.set o date (day_increment (JsObject.get o date)))
    end.

(** Aggregation 1: commits per day. *)
Definition commitsByDay (jsonData : list RepoCommitHistory)
  : Result (gmap string DayCount) :=
  forEach (fun acc repoData => forEach countCommit (commits repoData) acc)
          jsonData ∅.

(** One pass of the callback of the ecosystem aggregation. *)
Definition addRepo (acc : gmap string EcoTotal * N) (repoData : RepoCommitHistory)
  : gmap string EcoTotal * N :=
  let '(commitsByEcosystem, totalCommits) := acc in
  let ecosystem := ecosystem repoData in
  let commitCount := N.of_nat (length (commits repoData)) in
  let o :=
    if eco_falsy (JsObject.get commitsByEcosystem ecosystem)
    then JsObject.set commitsByEcosystem ecosystem (Sum 0)
    else commitsByEcosystem in
  (JsObject.set o ecosystem (eco_add (JsObject.get o ecosystem) commitCount),
   (totalCommits + commitCount)%N).

(** Aggregation 2: commits per ecosystem, and the overall total. *)
Definition commitsByEcosystem (jsonData : list RepoCommitHistory)
  : gmap string EcoTotal * N :=
  fold_left addRepo jsonData (∅, 0%N).

Definition summarizeData (input_file : option FileContent) : Run :=
  let started := [ConsoleLog "Starting data summarization..."] in
  match input_file with
  | None =>
      {| effects := started ++
           [ConsoleError "ERROR: The main data file 'exports_commit_history.json' does not exist. Run 'npm start' first."];
         completion := Ok tt |}
  | Some fileContent =>
      match (jsonData <- JSON_parse fileContent ;;
             byDay <- commitsByDay jsonData ;;
             Ok (byDay, commitsByEcosystem jsonData)) with
      | Throw e => {| effects := started; completion := Throw e |}
      | Ok (byDay, (byEcosystem, totalCommits)) =>
          {| effects := started ++
               [WriteFileSync DAILY_OUTPUT_PATH (JDaily byDay);
                ConsoleLog ("Daily summary saved to " +:+ DAILY_OUTPUT_PATH);
                WriteFileSync ECO_OUTPUT_PATH (JEcosystem byEcosystem totalCommits);
                ConsoleLog ("Ecosystem summary saved to " +:+ ECO_OUTPUT_PATH);
                ConsoleLog "Summarization complete!"];
             completion := Ok tt |}
      end
  end.

End WithDate.

(** The files a run wrote. *)
Definition writes (r : Run) : list (string * Json) :=
  omap (fun e => match e with WriteFileSync p d => Some (p, d) | _ => None end)
       (effects r).

(** The sum of the values of [totals], when every value is a number. *)
Definition sum_of_values (totals : gmap string EcoTotal) : option N :=
  map_fold (fun _ v acc =>
              match v, acc with
              | Sum n, Some a => Some (a + n)%N
              | _, _ => None
              end) (Some 0%N) totals.

End Summarizer.

(** ** The ingestor *)

Module Ingestor.

(** The paths, relative to the directory of the script. *)
Definition OUTPUT_FILE_PATH : string := "../data/exports_commit_history.json".
Definition INPUT_FILE_PATH : string := "../data/exports.json".
Definition DAYS_AGO : N := 30.
Definition LF : string := String (ascii_of_nat 10) EmptyString.

(** A line of the export once parsed; a field is [None] when the line does
    not carry it. *)
Record ExportLine := { repo_url : option string; eco_name : option string }.

Record RepoData := { cleanedRepo : OwnerRepo; cleanedEcosystem : string }.

(** The commit-listing API: one commit as the service returns it.
    [api_sha] is [commit.sha], [api_author] is [commit.commit.author] with
    its [name] and its [date] (here [authored]), and [api_message] is
    [commit.commit.message]. *)
Record ApiAuthor := { name : option string; authored : option string }.
Record ApiCommit := {
  api_sha : string;
  api_author : option ApiAuthor;
  api_message : string
}.

Record ListCommitsRequest := {
  req_owner : string;
  req_repo : string;
  since_days_ago : N;
  per_page : N
}.

Inductive ApiResponse :=
| Data (found : list ApiCommit)
| Failure (error : string).

Inductive Effect :=
| ConsoleLog (msg : string)
| ConsoleWarn (msg : string)
| ConsoleError (msg : string)
| ListCommits (octokit : string) (request : ListCommitsRequest) (response : ApiResponse)
| WriteFileSync (path : string) (data : Json).

(** The loop's variables, and the effects performed so far. *)
Record State := {
  allCommitsData : list RepoCommitHistory;
  processedRepos : gset string;
  newReposProcessed : N;
  trace : list Effect
}.

Definition fullName (r : RepoData) : string :=
  owner (cleanedRepo r) +:+ "/" +:+ repo (cleanedRepo r).

(** [commit => ({sha, author, date, message})] of [fetchCommitsForRepo]. *)
Definition toCommitRecord (commit : ApiCommit) : CommitRecord :=
  {| sha := api_sha commit;
     author :=
       (let n := api_author commit ≫= name in
        if Js.falsy_string n then "Unknown" else default EmptyString n);
     date := api_author commit ≫= authored;
     message := hd EmptyString (Js.split LF (api_message commit)) |}.

(** [GITHUB_TOKENS_STRING.split(',').map(t => t.trim()).filter(Boolean)] *)
Definition parseTokens (GITHUB_TOKENS_STRING : string) : list string :=
  filter (fun t => t <> EmptyString) (map Js.trim (Js.split "," GITHUB_TOKENS_STRING)).

Section WithPlatform.

(** [new URL(url)]; [None] when it throws. *)
Variable new_URL : string -> option URL.
(** [JSON.parse(line)]; [None] when it throws. *)
Variable JSON_parse_line : string -> option ExportLine.
(** [octokit.repos.listCommits(request)], retries of the client included. *)
Variable listCommits : string -> ListCommitsRequest -> ApiResponse.

(** The [line] handler of [parseInputFile].  An absent [repo_url] reaches
  the URL parser as the text [undefined]. *)
Definition onLine (results : list RepoData) (line : string) : list RepoData :=
  if String.eqb (Js.trim line) EmptyString then results
  else
    match JSON_parse_line line with
    | None => results
    | Some data =>
        match cleanRepoUrl new_URL (default "undefined" (repo_url data)) with
        | Some cleaned =>
            results ++ [{| cleanedRepo := cleaned;
                           cleanedEcosystem := cleanEcosystemName (eco_name data) |}]
        | None => results
        end
    end.

Definition parseInputFile (lines : list string) : list RepoData :=
  fold_left onLine lines [].

(** [fetchCommitsForRepo]: the commits, or [None] for [null], and the
    effects of the call. *)
Definition fetchCommitsForRepo (octokit owner repo : string)
  : option (list CommitRecord) * list Effect :=
  let started :=
    ConsoleLog (" - Fetching commits for " +:+ owner +:+ "/" +:+ repo +:+ "...") in
  let request :=
    {| req_owner := owner; req_repo := repo;
       since_days_ago := DAYS_AGO; per_page := 100 |} in
  match listCommits octokit request with
  | Data found =>
      (Some (map toCommitRecord found),
       [started; ListCommits octokit request (Data found)])
  | Failure error =>
      (None,
       [started; ListCommits octokit request (Failure error);
        ConsoleWarn ("   Could not fetch commits for " +:+ owner +:+ "/" +:+ repo
                     +:+ ". Error: " +:+ error)])
  end.

(** The body of the fetch loop at index [i]. *)
Definition step (octokitInstances : list string) (i : nat) (r : RepoData) (st : State)
  : State :=
  if decide (fullName r ∈ processedRepos st) then st
  else
    let octokit := nth (i mod length octokitInstances) octokitInstances EmptyString in
    let '(fetched, performed) :=
      fetchCommitsForRepo octokit (owner (cleanedRepo r)) (repo (cleanedRepo r)) in
    match fetched with
    | Some commits =>
        let data := allCommitsData st ++
          [{| repository := fullName r; ecosystem := cleanedEcosystem r;
              commits := commits |}] in
        {| allCommitsData := data;
           processedRepos := {[fullName r]} ∪ processedRepos st;
           newReposProcessed := (newReposProcessed st + 1)%N;
           trace := trace st ++ performed ++
                    [WriteFileSync OUTPUT_FILE_PATH (JCollection data)] |}
    | None =>
        {| allCommitsData := allCommitsData st;
           processedRepos := {[fullName r]} ∪ processedRepos st;
           newReposProcessed := newReposProcessed st;
           trace := trace st ++ performed |}
    end.

(** [for (let i = ...; i < repoDataList.length; i++)], from index [i]. *)
Fixpoint loop (octokitInstances : list string) (i : nat) (repoDataList : list RepoData)
    (st : State) : State :=
  match repoDataList with
  | [] => st
  | r :: rest => loop octokitInstances (S i) rest (step octokitInstances i r st)
  end.

(** Loading of previous progress.  For the two kinds of file of
    [FileContent] the [catch] branch is entered only when [JSON.parse]
    throws, that is before the assignment to [allCommitsData]: the collection
    is still empty and no key was added. *)
Definition loadProgress (output_file : option FileContent) (performed : list Effect)
  : State :=
  match output_file with
  | None =>
      {| allCommitsData := []; processedRepos := ∅; newReposProcessed := 0;
         trace := performed |}
  | Some existingContent =>
      let found :=
        performed ++ [ConsoleLog "Found existing output file. Loading previous progress..."] in
      match JSON_parse existingContent with
      | Ok data =>
          let processed : gset string := list_to_set (map repository data) in
          {| allCommitsData := data; processedRepos := processed;
             newReposProcessed := 0;
             trace := found ++
               [ConsoleLog ("Resuming. " +:+ Number_toString (N.of_nat (size processed))
                            +:+ " repositories have already been processed.")] |}
      | Throw _ =>
          {| allCommitsData := []; processedRepos := ∅; newReposProcessed := 0;
             trace := found ++
               [ConsoleWarn "Could not parse existing output file. Starting from scratch."] |}
      end
  end.

(** [main] from the loading of previous progress to the end of the loop,
    once the tokens are known: the state when the loop ends. *)
Definition fetchAll (tokens : list string) (output_file : option FileContent)
    (input_lines : list string) : State :=
  let loaded :=
    loadProgress output_file
      [ConsoleLog "Starting GitHub commit history scraper...";
       ConsoleLog ("Loaded " +:+ Number_toString (N.of_nat (length tokens))
                   +:+ " GitHub token(s) for rotation.")] in
  let repoDataList := parseInputFile input_lines in
  loop tokens 0 repoDataList
    {| allCommitsData := allCommitsData loaded;
       processedRepos := processedRepos loaded;
       newReposProcessed := 0;
       trace := trace loaded ++
         [ConsoleLog ("Reading large file from " +:+ INPUT_FILE_PATH
                      +:+ "... (This may take a moment)");
          ConsoleLog ("Found " +:+ Number_toString (N.of_nat (length repoDataList))
                      +:+ " total repositories to analyze.")] |}.

(** [main]: the effects of a run, in order.  [input_lines] are the lines
    of the export. *)
Definition main (GITHUB_TOKENS_STRING : option string)
    (output_file : option FileContent) (input_lines : list string) : list Effect :=
  let started := ConsoleLog "Starting GitHub commit history scraper..." in
  if Js.falsy_string GITHUB_TOKENS_STRING
  then [started; ConsoleError "ERROR: GITHUB_TOKENS is not set in your .env file."]
  else
    let tokens := parseTokens (default EmptyString GITHUB_TOKENS_STRING) in
    if (length tokens =? 0)%nat
    then [started; ConsoleError "ERROR: No valid tokens found in GITHUB_TOKENS."]
    else
      let st := fetchAll tokens output_file input_lines in
      trace st ++
        [ConsoleLog (LF +:+ "Processed " +:+ Number_toString (newReposProcessed st)
                     +:+ " new repositories in this session.");
         WriteFileSync OUTPUT_FILE_PATH (JCollection (allCommitsData st));
         ConsoleLog ("Success! All data saved to " +:+ OUTPUT_FILE_PATH)].

End WithPlatform.

(** The output file after a sequence of effects, each of them complete,
    given its content before. *)
Definition disk_after (output_file : option FileContent) (performed : list Effect)
  : option FileContent :=
  fold_left
    (fun file e =>
       match e with
       | WriteFileSync path (JCollection data) =>
           if String.eqb path OUTPUT_FILE_PATH then Some (JsonText data) else file
       | _ => file
       end)
    performed output_file.

(** The entries a later run can load from the output file. *)
Definition saved (output_file : option FileContent) : list RepoCommitHistory :=
  match output_file with
  | Some (JsonText data) => data
  | _ => []
  end.

(** Where a run can be stopped: once [k] of its effects are complete, or
    inside the effect of index [k]. *)
Inductive StopPoint :=
| AfterEffects (k : nat)
| InsideEffect (k : nat).

(** The output file of a run stopped at a point.  [fs.writeFileSync(path,
    text)] writes in place: it opens the file for writing, which empties it,
    and then writes the text.  Stopped inside the call, the file holds a
    start of the text without its end; the text of a collection ends with
    the bracket that closes it, so such a start is text that [JSON.parse]
    rejects. *)
Definition disk_at (output_file : option FileContent) (performed : list Effect)
    (p : StopPoint) : option FileContent :=
  match p with
  | AfterEffects k => disk_after output_file (take k performed)
  | InsideEffect k =>
      match performed !! k with
      | Some (WriteFileSync path (JCollection _)) =>
          if String.eqb path OUTPUT_FILE_PATH then Some Malformed
          else disk_after output_file (take k performed)
      | _ => disk_after output_file (take k performed)
      end
  end.

(** The repositories the commit-listing API was asked about, in order. *)
Definition requested (performed : list Effect) : list string :=
  omap (fun e =>
          match e with
          | ListCommits _ request _ => Some (req_owner request +:+ "/" +:+ req_repo request)
          | _ => None
          end) performed.

End Ingestor.

(** ** Sample platform behaviour, for running the model on concrete inputs *)

Module Sample.

(** The platform's URL parser on [https] URLs of a few hosts whose path is
    made of lower-case letters, digits, [-], [_], [.] and [/] and has no [.]
    or [..] segment: the host is the text up to the first [/] and the path is
    the rest.  Every other text is refused. *)
Definition plain_hosts : list string :=
  ["github.com"; "www.github.com"; "gitlab.com"; "bitbucket.org"].

Definition plain_char (c : ascii) : bool :=
  let n := nat_of_ascii c in
  ((97 <=? n)%nat && (n <=? 122)%nat) || ((48 <=? n)%nat && (n <=? 57)%nat)
  || (n =? 45)%nat || (n =? 95)%nat || (n =? 46)%nat || (n =? 47)%nat.

Fixpoint all_chars (p : ascii -> bool) (s : string) : bool :=
  match s with
  | EmptyString => true
  | String c r => p c && all_chars p r
  end.

Definition new_URL (url : string) : option URL :=
  if String.prefix "https://" url && all_chars plain_char (String.substring 8 (String.length url) url)
  then
    match Js.split "/" (String.substring 8 (String.length url) url) with
    | host :: segments =>
        if negb (existsb (String.eqb host) plain_hosts)
           || existsb (fun seg => String.eqb seg "." || String.eqb seg "..") segments
        then None
        else Some {| hostname := host;
                     pathname := "/" +:+ String.concat "/" segments |}
    | [] => None
    end
  else None.

(** The platform's Date on the timestamps the commit API returns,
    [YYYY-MM-DDTHH:MM:SSZ] with a four-digit year, a month from 01 to 12, a
    day from 01 to 28 and a time of day up to 23:59:59: the ISO form adds the
    milliseconds.  Every other text is refused. *)
Fixpoint has_shape (shape : list (ascii -> bool)) (s : string) : bool :=
  match shape, s with
  | [], EmptyString => true
  | p :: ps, String c r => p c && has_shape ps r
  | _, _ => false
  end.

Definition timestamp_shape : list (ascii -> bool) :=
  let d := Js.is_digit in
  let lit (x : ascii) := Ascii.eqb x in
  [d; d; d; d; lit "-"; d; d; lit "-"; d; d; lit "T";
   d; d; lit ":"; d; d; lit ":"; d; d; lit "Z"]%char.

(** The number written by the two digits of [s] at offset [i]. *)
Definition two_digits (s : string) (i : nat) : nat :=
  match String.get i s, String.get (S i) s with
  | Some a, Some b => 10 * (nat_of_ascii a - 48) + (nat_of_ascii b - 48)
  | _, _ => 0
  end.

Definition in_range (lo n hi : nat) : bool := (lo <=? n)%nat && (n <=? hi)%nat.

Definition Date_toISOString (d : string) : option string :=
  if has_shape timestamp_shape d
     && in_range 1 (two_digits d 5) 12 && in_range 1 (two_digits d 8) 28
     && in_range 0 (two_digits d 11) 23 && in_range 0 (two_digits d 14) 59
     && in_range 0 (two_digits d 17) 59
  then Some (String.substring 0 19 d +:+ ".000Z")
  else None.

Definition quote : string := String (ascii_of_nat 34) EmptyString.

(** The line of the export that carries [url] and [eco]. *)
Definition export_line (url eco : string) : string :=
  "{" +:+ quote +:+ "repo_url" +:+ quote +:+ ":" +:+ quote +:+ url +:+ quote +:+ ","
      +:+ quote +:+ "eco_name" +:+ quote +:+ ":" +:+ quote +:+ eco +:+ quote +:+ "}".

(** [JSON.parse] on the lines of a small export; other lines are refused. *)
Definition export_table : list (string * string) :=
  [("https://github.com/octo/alpha", "Ethereum - L2");
   ("https://github.com/octo/beta.git", "Bitcoin");
   ("https://gitlab.com/octo/gamma", "Bitcoin")].

Definition JSON_parse_line (line : string) : option Ingestor.ExportLine :=
  match find (fun '(url, eco) => String.eqb line (export_line url eco)) export_table with
  | Some (url, eco) =>
      Some {| Ingestor.repo_url := Some url; Ingestor.eco_name := Some eco |}
  | None => None
  end.

Definition export_lines : list string :=
  map (fun '(url, eco) => export_line url eco) export_table.

Definition commit_of (id : string) (when : option string) : Ingestor.ApiCommit :=
  {| Ingestor.api_sha := id;
     Ingestor.api_author :=
       Some {| Ingestor.name := Some "dev"; Ingestor.authored := when |};
     Ingestor.api_message := "change " +:+ id +:+ Ingestor.LF +:+ "details" |}.

(** A service that knows [octo/beta] only. *)
Definition listCommits_beta (octokit : string) (request : Ingestor.ListCommitsRequest)
  : Ingestor.ApiResponse :=
  if String.eqb (Ingestor.req_owner request) "octo"
     && String.eqb (Ingestor.req_repo request) "beta"
  then Ingestor.Data [commit_of "c1" (Some "2024-01-01T10:00:00Z"); commit_of "c2" None]
  else Ingestor.Failure "HttpError: Not Found".

(** A service that knows every repository. *)
Definition listCommits_all (octokit : string) (request : Ingestor.ListCommitsRequest)
  : Ingestor.ApiResponse :=
  Ingestor.Data [commit_of "c3" (Some "2024-01-02T00:00:00Z")].

Definition commit_at (when : option string) : CommitRecord :=
  {| sha := "c0"; author := "dev"; date := when; message := "change" |}.

End Sample.

(** ** Notions used by the statements *)

(** [sep] occurs in [s] at offset [i]. *)
Definition occurs_at (sep s : string) (i : nat) : Prop :=
  String.substring i (String.length sep) s = sep.

(** The cleaning rule in the specification's words: a trailing [".git"] is
    removed from the path, and the first two segments are kept. *)
Fixpoint strip_dot_git_suffix (s : string) : string :=
  match s with
  | EmptyString => EmptyString
  | String ch r =>
      if String.eqb s ".git" then EmptyString else String ch (strip_dot_git_suffix r)
  end.

Definition cleanRepoUrl_rule (new_URL : string -> option URL) (url : string)
  : option OwnerRepo :=
  match new_URL url with
  | None => None
  | Some parsedUrl =>
      if String.eqb (hostname parsedUrl) "github.com" then
        match Js.split "/" (strip_dot_git_suffix (Js.substring_1 (pathname parsedUrl))) with
        | p0 :: p1 :: _ => Some {| owner := p0; repo := p1 |}
        | _ => None
        end
      else None
  end.

(** The path ends in [git] after a code unit that the wildcard accepts and
    that is not a dot. *)
Fixpoint wildcard_hit (s : string) : bool :=
  match s with
  | EmptyString => false
  | String ch r =>
      if String.eqb r "git"
      then negb (Js.is_line_terminator ch) && negb (Ascii.eqb ch ".")
      else wildcard_hit r
  end.

(** A key that is not a property of [Object.prototype]. *)
Definition ordinary_key (key : string) : Prop := JsObject.Object_prototype key = None.

(** Every commit of a collection. *)
Definition all_commits (data : list RepoCommitHistory) : list CommitRecord :=
  concat (map commits data).

(** A first code unit of an ISO timestamp: a digit or the sign of an
    expanded year. *)
Definition year_start (ch : ascii) : bool :=
  Js.is_digit ch || Ascii.eqb ch "+" || Ascii.eqb ch "-".

(** The update [countCommit] applies for a commit of day [day]. *)
Definition bumpDay (o : gmap string DayCount) (day : string) : gmap string DayCount :=
  let o' :=
    if day_falsy (JsObject.get o day) then JsObject.set o day (Count 0) else o in
  JsObject.set o' day (day_increment (JsObject.get o' day)).

(** The count an object holds for a day. *)
Definition day_count (o : gmap string DayCount) (day : string) : N :=
  match o !! day with
  | Some (Count n) => n
  | _ => 0%N
  end.

(** Every own property is a number. *)
Definition day_numbers (o : gmap string DayCount) : Prop :=
  forall key v, o !! key = Some v -> exists n, v = Count n.

(** How often [day] occurs in a list of days. *)
Definition occurrences (day : string) (days : list string) : nat :=
  length (filter (fun d => d = day) days).

(** The day [countCommit] files a commit under: [None] when it skips the
    commit, an exception when the date is invalid. *)
Definition commit_day (Date_toISOString : string -> option string) (commit : CommitRecord)
  : Result (option string) :=
  if Js.falsy_string (date commit) then Ok None
  else
    match Date_toISOString (default EmptyString (date commit)) with
    | None => Throw RangeError
    | Some iso => Ok (Some (hd EmptyString (Js.split "T" iso)))
    end.

Definition dated (Date_toISOString : string -> option string) (commit : CommitRecord)
  : bool :=
  match commit_day Date_toISOString commit with Ok _ => true | Throw _ => false end.

Definition day_of (Date_toISOString : string -> option string) (commit : CommitRecord)
  : option string :=
  match commit_day Date_toISOString commit with Ok d => d | Throw _ => None end.

(** The UTC calendar day of a commit whose date is present. *)
Definition utc_day (Date_toISOString : string -> option string) (commit : CommitRecord)
  : option string :=
  d ← date commit;
  iso ← Date_toISOString d;
  Some (hd EmptyString (Js.split "T" iso)).

(** An entry with the dates of its commits removed. *)
Definition without_dates (r : RepoCommitHistory) : RepoCommitHistory :=
  {| repository := repository r;
     ecosystem := ecosystem r;
     commits := map (fun commit => {| sha := sha commit; author := author commit;
                                      date := None; message := message commit |})
                    (commits r) |}.

(** The update [addRepo] applies to the object. *)
Definition addTotal (o : gmap string EcoTotal) (label : string) (commitCount : N)
  : gmap string EcoTotal :=
  let o' :=
    if eco_falsy (JsObject.get o label) then JsObject.set o label (Sum 0) else o in
  JsObject.set o' label (eco_add (JsObject.get o' label) commitCount).

Definition eco_total (o : gmap string EcoTotal) (label : string) : N :=
  match o !! label with
  | Some (Sum n) => n
  | _ => 0%N
  end.

Definition eco_numbers (o : gmap string EcoTotal) : Prop :=
  forall key v, o !! key = Some v -> exists n, v = Sum n.

(** The number of commits of the repositories filed under [label]. *)
Definition commits_under (label : string) (data : list RepoCommitHistory) : N :=
  N.of_nat (length (all_commits (filter (fun r => ecosystem r = label) data))).

(** [data'] is [data] with its entries permuted, or with the commits of
    entries permuted, any number of times. *)
Inductive reordered : list RepoCommitHistory -> list RepoCommitHistory -> Prop :=
| reordered_entries data data' :
    data ≡ₚ data' -> reordered data data'
| reordered_commits data1 data2 r commits' :
    commits r ≡ₚ commits' ->
    reordered (data1 ++ r :: data2)
              (data1 ++ {| repository := repository r; ecosystem := ecosystem r;
                           commits := commits' |} :: data2)
| reordered_trans data1 data2 data3 :
    reordered data1 data2 -> reordered data2 data3 -> reordered data1 data3.

(** What the ecosystem aggregation reads of a collection. *)
Definition same_counts (data data' : list RepoCommitHistory) : Prop :=
  (forall label, label ∈ map ecosystem data <-> label ∈ map ecosystem data')
  /\ (forall label, commits_under label data = commits_under label data')
  /\ all_commits data ≡ₚ all_commits data'.

(** The console messages of a run of the summarizer, in order. *)
Definition printed (r : Summarizer.Run) : list string :=
  omap (fun e =>
          match e with
          | Summarizer.ConsoleLog msg | Summarizer.ConsoleError msg => Some msg
          | Summarizer.WriteFileSync _ _ => None
          end) (Summarizer.effects r).

(** A collection with a dated and an undated commit. *)
Definition dated_and_undated : list RepoCommitHistory :=
  [{| repository := "octo/alpha"; ecosystem := "Ethereum";
      commits := [Sample.commit_at (Some "2024-01-01T10:00:00Z");
                  Sample.commit_at None] |}].

(** *** Notions about a run of the ingestor *)

Module Run.
Import Ingestor.

(** The key of the repository a request is about. *)
Definition request_key (request : ListCommitsRequest) : string :=
  req_owner request +:+ "/" +:+ req_repo request.

(** The request [fetchCommitsForRepo] sends for a repository. *)
Definition request_for (r : RepoData) : ListCommitsRequest :=
  {| req_owner := owner (cleanedRepo r); req_repo := repo (cleanedRepo r);
     since_days_ago := DAYS_AGO; per_page := 100 |}.

(** The entry [main] appends after a successful fetch. *)
Definition entry_for (request : ListCommitsRequest) (eco : string) (found : list ApiCommit)
  : RepoCommitHistory :=
  {| repository := request_key request; ecosystem := eco;
     commits := map toCommitRecord found |}.

(** The repositories whose fetch failed, in order. *)
Definition failed (performed : list Effect) : list string :=
  omap (fun e =>
          match e with
          | ListCommits _ request (Failure _) => Some (request_key request)
          | _ => None
          end) performed.

Definition fetch_log (r : RepoData) : Effect :=
  ConsoleLog (" - Fetching commits for " +:+ owner (cleanedRepo r) +:+ "/"
              +:+ repo (cleanedRepo r) +:+ "...").

Definition fetch_warning (r : RepoData) (error : string) : Effect :=
  ConsoleWarn ("   Could not fetch commits for " +:+ owner (cleanedRepo r) +:+ "/"
               +:+ repo (cleanedRepo r) +:+ ". Error: " +:+ error).

(** The three ways an iteration of the loop can go. *)
Inductive step_outcome (listCommits : string -> ListCommitsRequest -> ApiResponse)
    (i : nat) (r : RepoData) (st : State) : State -> Prop :=
| step_skip :
    fullName r ∈ processedRepos st ->
    step_outcome listCommits i r st st
| step_saved octokit found :
    fullName r ∉ processedRepos st ->
    listCommits octokit (request_for r) = Data found ->
    step_outcome listCommits i r st
      {| allCommitsData :=
           allCommitsData st ++ [entry_for (request_for r) (cleanedEcosystem r) found];
         processedRepos := {[fullName r]} ∪ processedRepos st;
         newReposProcessed := (newReposProcessed st + 1)%N;
         trace := trace st ++
           [fetch_log r; ListCommits octokit (request_for r) (Data found);
            WriteFileSync OUTPUT_FILE_PATH
              (JCollection (allCommitsData st ++
                 [entry_for (request_for r) (cleanedEcosystem r) found]))] |}
| step_failed octokit error :
    fullName r ∉ processedRepos st ->
    listCommits octokit (request_for r) = Failure error ->
    step_outcome listCommits i r st
      {| allCommitsData := allCommitsData st;
         processedRepos := {[fullName r]} ∪ processedRepos st;
         newReposProcessed := newReposProcessed st;
         trace := trace st ++
           [fetch_log r; ListCommits octokit (request_for r) (Failure error);
            fetch_warning r error] |}.

(** Every write of the trace extends what the file held. *)
Fixpoint writes_extend (file : option FileContent) (performed : list Effect) : Prop :=
  match performed with
  | [] => True
  | e :: rest =>
      saved file `prefix_of` saved (disk_after file [e])
      /\ writes_extend (disk_after file [e]) rest
  end.

(** An effect that neither writes the file nor brings commits. *)
Definition quiet (e : Effect) : Prop :=
  match e with
  | WriteFileSync _ _ => False
  | ListCommits _ _ (Data _) => False
  | _ => True
  end.

(** In [performed], the effect after a successful fetch is the write of the
    file's entries followed by the new one. *)
Definition saved_at_once (file : option FileContent) (performed : list Effect) : Prop :=
  forall k octokit request found,
    performed !! k = Some (ListCommits octokit request (Data found)) ->
    exists eco,
      performed !! S k =
        Some (WriteFileSync OUTPUT_FILE_PATH
                (JCollection (saved (disk_after file (take k performed))
                              ++ [entry_for request eco found]))).

(** The file holds the collection in memory, every write so far extended
    the file, and every successful fetch so far was saved at once. *)
Definition durable (file : option FileContent) (st : State) : Prop :=
  saved (disk_after file (trace st)) = allCommitsData st
  /\ writes_extend file (trace st)
  /\ saved_at_once file (trace st).

(** The keys of the collection are distinct and all marked processed. *)
Definition keyed (st : State) : Prop :=
  NoDup (map repository (allCommitsData st))
  /\ forall key, key ∈ map repository (allCommitsData st) -> key ∈ processedRepos st.

(** No repository was asked about twice; the repositories asked about are
    marked processed, and so are the keys of the collection; no repository
    whose fetch failed has an entry. *)
Definition asked_once (st : State) : Prop :=
  NoDup (requested (trace st))
  /\ (forall key, key ∈ requested (trace st) -> key ∈ processedRepos st)
  /\ (forall key, key ∈ map repository (allCommitsData st) -> key ∈ processedRepos st)
  /\ (forall key, key ∈ failed (trace st) -> key ∉ map repository (allCommitsData st)).

(** A repository is marked processed only if the file had an entry for it
    or the service was asked about it. *)
Definition marked_for (file : option FileContent) (st : State) : Prop :=
  forall key, key ∈ processedRepos st ->
              key ∈ map repository (saved file) \/ key ∈ requested (trace st).

(** The output files that runs of the ingestor leave, starting without a
    file or with an unreadable one; the platform, the tokens and the export
    may differ from run to run. *)
Inductive produced : option FileContent -> Prop :=
| produced_absent : produced None
| produced_unreadable : produced (Some Malformed)
| produced_run file new_URL JSON_parse_line listCommits tokens input_lines :
    produced file ->
    produced (disk_after file
                (main new_URL JSON_parse_line listCommits tokens file input_lines)).

End Run.

(** ** Further notions *)

(** Every code unit of [s] satisfies [p]. *)
Fixpoint every_char (p : ascii -> bool) (s : string) : bool :=
  match s with
  | EmptyString => true
  | String ch r => p ch && every_char p r
  end.

(** [s] holds the code unit [c]. *)
Fixpoint has_char (c : ascii) (s : string) : bool :=
  match s with
  | EmptyString => false
  | String ch r => Ascii.eqb ch c || has_char c r
  end.

(** The separator made of one code unit. *)
Definition sep1 (c : ascii) : string := String c EmptyString.

(** White space or a comma: what a token string may hold besides tokens. *)
Definition blank_or_comma (ch : ascii) : bool :=
  Js.is_white_space ch || Ascii.eqb ch ",".

(** The sum of the counts of the daily summary, when every count is a
    number. *)
Definition sum_of_counts (commitsByDay : gmap string DayCount) : option N :=
  map_fold (fun _ v acc =>
              match v, acc with
              | Count n, Some a => Some (a + n)%N
              | _, _ => None
              end) (Some 0%N) commitsByDay.

(** A commit whose date is present and not empty. *)
Definition has_date (commit : CommitRecord) : bool :=
  negb (Js.falsy_string (date commit)).

(** *** Further notions about a run of the ingestor *)

Module Resume.
Import Ingestor Run.

(** An effect on the console. *)
Definition on_console (e : Effect) : Prop :=
  match e with
  | ConsoleLog _ | ConsoleWarn _ | ConsoleError _ => True
  | _ => False
  end.

(** The repositories whose fetch succeeded, in order. *)
Definition succeeded (performed : list Effect) : list string :=
  omap (fun e =>
          match e with
          | ListCommits _ request (Data _) => Some (request_key request)
          | _ => None
          end) performed.

(** The state in which the loop starts, for a given output file: the
    collection and the processed set are those loaded from the file, and only
    the console was used so far. *)
Definition start_of (file : option FileContent) (st : State) : Prop :=
  allCommitsData st = saved file
  /\ processedRepos st = list_to_set (map repository (saved file))
  /\ newReposProcessed st = 0%N
  /\ Forall on_console (trace st).

(** Two states with the same variables, whatever was performed before. *)
Definition same_variables (st1 st2 : State) : Prop :=
  allCommitsData st1 = allCommitsData st2
  /\ processedRepos st1 = processedRepos st2
  /\ newReposProcessed st1 = newReposProcessed st2.

(** The three effects that end a run. *)
Definition final_flush (st : State) : list Effect :=
  [ConsoleLog (LF +:+ "Processed " +:+ Number_toString (newReposProcessed st)
               +:+ " new repositories in this session.");
   WriteFileSync OUTPUT_FILE_PATH (JCollection (allCommitsData st));
   ConsoleLog ("Success! All data saved to " +:+ OUTPUT_FILE_PATH)].

End Resume.

(** * Properties *)

(** ** Splitting and trimming *)

Lemma append_nil s : EmptyString +:+ s = s.
Proof. reflexivity. Qed.
Lemma append_cons ch r s : String ch r +:+ s = String ch (r +:+ s).
Proof. reflexivity. Qed.

Lemma split_from_nonempty sep skip s : Js.split_from sep skip s <> [].
Proof.
  revert skip. induction s as [|ch r IH]; intros skip; cbn [Js.split_from]; [done|].
  destruct skip; [|apply IH].
  destruct (String.prefix sep (String ch r)); [done|].
  destruct (Js.split_from sep 0 r); done.
Qed.

Lemma occurs_at_0 sep s : occurs_at sep s 0 <-> String.prefix sep s = true.
Proof. unfold occurs_at. symmetry. apply String.prefix_correct. Qed.

Lemma occurs_at_S sep ch r i :
  occurs_at sep (String ch r) (S i) <-> occurs_at sep r i.
Proof. unfold occurs_at. reflexivity. Qed.

Lemma prefix_append sep post : String.prefix sep (sep +:+ post) = true.
Proof.
  induction sep as [|ch r IH]; [by destruct post|].
  rewrite append_cons. cbn [String.prefix].
  destruct (ascii_dec ch ch); [apply IH|done].
Qed.

(** The first segment of a split is the text before the first occurrence
    of the separator. *)
Lemma hd_split_first_occurrence sep pre post :
  sep <> EmptyString ->
  (forall i, i < String.length pre -> ~ occurs_at sep (pre +:+ sep +:+ post) i) ->
  hd EmptyString (Js.split sep (pre +:+ sep +:+ post)) = pre.
Proof.
  intros Hsep. unfold Js.split.
  induction pre as [|ch r IH]; intros Hfirst.
  - rewrite append_nil. destruct sep as [|c0 sep']; [done|].
    pose proof (prefix_append (String c0 sep') post) as Hp.
    rewrite append_cons in *. cbn [Js.split_from]. by rewrite Hp.
  - rewrite append_cons in *.
    cbn [Js.split_from].
    destruct (String.prefix sep (String ch (r +:+ sep +:+ post))) eqn:Hp.
    + exfalso. apply (Hfirst 0); [simpl; lia|]. by apply occurs_at_0.
    + pose proof (split_from_nonempty sep 0 (r +:+ sep +:+ post)) as Hne.
      destruct (Js.split_from sep 0 (r +:+ sep +:+ post)) as [|seg segs] eqn:Hs; [done|].
      simpl. f_equal. simpl in IH. apply IH.
      intros i Hi Hocc. apply (Hfirst (S i)); [simpl; lia|].
      by apply occurs_at_S.
Qed.

(** C8.  A label that contains [" - "] is cleaned to the text before the
    first occurrence of [" - "], trimmed; an absent or empty label is cleaned
    to ["Unknown"]. *)
Theorem cleanEcosystemName_first_segment :
  (forall pre post : string,
      (forall i, i < String.length pre ->
                 ~ occurs_at " - " (pre +:+ " - " +:+ post) i) ->
      cleanEcosystemName (Some (pre +:+ " - " +:+ post)) = Js.trim pre)
  /\ cleanEcosystemName None = "Unknown"
  /\ cleanEcosystemName (Some EmptyString) = "Unknown".
Proof.
  split; [|split; reflexivity].
  intros pre post Hfirst. unfold cleanEcosystemName.
  destruct (pre +:+ " - " +:+ post) as [|ch r] eqn:Hname.
  - destruct pre; discriminate.
  - rewrite <- Hname in *. by rewrite hd_split_first_occurrence.
Qed.

(** The claim on a label with two separators and a leading blank. *)
Lemma cleanEcosystemName_first_segment_witness :
  cleanEcosystemName (Some (" Ethereum" +:+ " - " +:+ "L2 - Arbitrum")) = "Ethereum".
Proof.
  transitivity (Js.trim " Ethereum"); [|reflexivity].
  apply (proj1 cleanEcosystemName_first_segment " Ethereum" "L2 - Arbitrum").
  intros i Hi. unfold occurs_at.
  do 9 (destruct i as [|i]; [vm_compute; discriminate|]).
  simpl in Hi. lia.
Defined.

(** ** Repository URLs *)

Section CleanRepoUrlFacts.

Variable new_URL : string -> option URL.

Lemma cleanRepoUrl_unparsed url :
  new_URL url = None -> cleanRepoUrl new_URL url = None.
Proof. intros H. unfold cleanRepoUrl. by rewrite H. Qed.

Lemma cleanRepoUrl_other_host url parsedUrl :
  new_URL url = Some parsedUrl ->
  hostname parsedUrl <> "github.com" ->
  cleanRepoUrl new_URL url = None.
Proof.
  intros H Hhost. unfold cleanRepoUrl. rewrite H.
  apply String.eqb_neq in Hhost. by rewrite Hhost.
Qed.

Lemma cleanRepoUrl_some url r :
  cleanRepoUrl new_URL url = Some r ->
  exists parsedUrl, new_URL url = Some parsedUrl /\ hostname parsedUrl = "github.com".
Proof.
  unfold cleanRepoUrl. destruct (new_URL url) as [u|]; [|done].
  destruct (String.eqb (hostname u) "github.com") eqn:Hh; [|done].
  intros _. exists u. split; [done|]. by apply String.eqb_eq.
Qed.

Lemma length_append s1 s2 :
  String.length (s1 +:+ s2) = String.length s1 + String.length s2.
Proof.
  induction s1 as [|c s1 IH]; [done|].
  change (String c s1 +:+ s2) with (String c (s1 +:+ s2)). simpl. by rewrite IH.
Qed.

(** The pattern removes the last four code units whenever the text ends
    in [git] after a code unit that is not a line terminator. *)
Lemma replace_dot_git_end_hit p ch :
  Js.is_line_terminator ch = false ->
  Js.replace_dot_git_end (p +:+ String ch "git") = p.
Proof.
  intros Hch. induction p as [|c p IH].
  - change (EmptyString +:+ String ch "git") with (String ch "git").
    cbn [Js.replace_dot_git_end]. by rewrite String.eqb_refl, Hch.
  - change (String c p +:+ String ch "git") with (String c (p +:+ String ch "git")).
    cbn [Js.replace_dot_git_end]. rewrite IH.
    assert (String.eqb (p +:+ String ch "git") "git" = false) as ->; [|done].
    apply String.eqb_neq. intros H. apply (f_equal String.length) in H.
    rewrite length_append in H. simpl in H. lia.
Qed.

Lemma replace_dot_git_end_literal s :
  wildcard_hit s = false ->
  Js.replace_dot_git_end s = strip_dot_git_suffix s.
Proof.
  induction s as [|ch r IH]; [done|].
  cbn [wildcard_hit Js.replace_dot_git_end strip_dot_git_suffix].
  destruct (String.eqb r "git") eqn:Hr.
  - apply String.eqb_eq in Hr. subst r. intros Hhit.
    destruct (Js.is_line_terminator ch) eqn:Hlt; simpl in Hhit |- *.
    + destruct (Ascii.eqb ch ".") eqn:Hdot; [|done].
      apply Ascii.eqb_eq in Hdot. by subst ch.
    + apply negb_false_iff, Ascii.eqb_eq in Hhit. by subst ch.
  - intros Hhit.
    assert (String.eqb (String ch r) ".git" = false) as ->.
    { apply String.eqb_neq. intros [= -> ->]. done. }
    simpl. f_equal. by apply IH.
Qed.

(** X5.  Where the wildcard of the pattern meets nothing but a dot, the
    code follows the rule: a trailing [".git"] is removed and the first two
    segments are kept. *)
Lemma cleanRepoUrl_follows_rule url parsedUrl :
  new_URL url = Some parsedUrl ->
  wildcard_hit (Js.substring_1 (pathname parsedUrl)) = false ->
  cleanRepoUrl new_URL url = cleanRepoUrl_rule new_URL url.
Proof.
  intros Hu Hhit. unfold cleanRepoUrl, cleanRepoUrl_rule. rewrite Hu.
  rewrite replace_dot_git_end_literal by done.
  destruct (String.eqb (hostname parsedUrl) "github.com"); [|done]. simpl.
  destruct (Js.split "/" _) as [|p0 [|p1 rest]]; done.
Qed.

End CleanRepoUrlFacts.

(** C1.  The code at two GitHub URLs of two path segments: the repository
    [git/git] gets no result, and [go-git/go-git] loses the end of its name,
    because the pattern [/.git$/] starts with a wildcard. *)
Theorem cleanRepoUrl_wildcard_strips_names :
  Sample.new_URL "https://github.com/git/git"
    = Some {| hostname := "github.com"; pathname := "/git/git" |}
  /\ Js.split "/" (Js.substring_1 "/git/git") = ["git"; "git"]
  /\ cleanRepoUrl Sample.new_URL "https://github.com/git/git" = None
  /\ cleanRepoUrl_rule Sample.new_URL "https://github.com/git/git"
     = Some {| owner := "git"; repo := "git" |}
  /\ cleanRepoUrl Sample.new_URL "https://github.com/go-git/go-git"
     = Some {| owner := "go-git"; repo := "go" |}
  /\ cleanRepoUrl_rule Sample.new_URL "https://github.com/go-git/go-git"
     = Some {| owner := "go-git"; repo := "go-git" |}.
Proof. repeat split; vm_compute; reflexivity. Qed.

Example cleanRepoUrl_dot_git :
  cleanRepoUrl Sample.new_URL "https://github.com/octo/beta.git"
  = Some {| owner := "octo"; repo := "beta" |}.
Proof. vm_compute. reflexivity. Qed.

Example cleanRepoUrl_one_segment :
  cleanRepoUrl Sample.new_URL "https://github.com/octo" = None.
Proof. vm_compute. reflexivity. Qed.

Example cleanRepoUrl_gitlab :
  cleanRepoUrl Sample.new_URL "https://gitlab.com/octo/gamma" = None.
Proof. vm_compute. reflexivity. Qed.

(** ** The summarizer *)

Section ObjectFacts.
Context {V : Type}.
Implicit Types (o : gmap string V) (key : string).

Lemma ordinary_not_proto key : ordinary_key key -> String.eqb key "__proto__" = false.
Proof.
  unfold ordinary_key, JsObject.Object_prototype.
  by destruct (String.eqb key "__proto__").
Qed.

Lemma get_ordinary o key :
  ordinary_key key ->
  JsObject.get o key =
    match o !! key with Some v => JsObject.Own v | None => JsObject.Undefined end.
Proof. intros H. unfold JsObject.get. by rewrite H. Qed.

Lemma set_ordinary o key v :
  ordinary_key key -> JsObject.set o key v = <[key := v]> o.
Proof. intros H. unfold JsObject.set. by rewrite ordinary_not_proto. Qed.

End ObjectFacts.

Lemma year_start_ordinary ch r : year_start ch = true -> ordinary_key (String ch r).
Proof.
  intros H. unfold ordinary_key, JsObject.Object_prototype.
  destruct ch as [[] [] [] [] [] [] [] []]; try discriminate H; reflexivity.
Qed.

Lemma hd_split_T ch r :
  year_start ch = true ->
  exists seg, hd EmptyString (Js.split "T" (String ch r)) = String ch seg.
Proof.
  intros H. unfold Js.split. cbn [Js.split_from].
  assert (String.prefix "T" (String ch r) = false) as ->.
  { destruct ch as [[] [] [] [] [] [] [] []]; try discriminate H; reflexivity. }
  destruct (Js.split_from "T" 0 r) as [|seg segs]; simpl; eauto.
Qed.

(** *** The timeline aggregation *)

Lemma bumpDay_ordinary o day :
  ordinary_key day -> day_numbers o ->
  bumpDay o day = <[day := Count (day_count o day + 1)]> o.
Proof.
  intros Hk Ho. unfold bumpDay, day_count.
  rewrite (get_ordinary o) by done.
  destruct (o !! day) as [v|] eqn:Hv.
  - destruct (Ho _ _ Hv) as [n ->]. simpl.
    destruct (N.eqb n 0) eqn:Hn.
    + apply N.eqb_eq in Hn. subst n.
      rewrite !set_ordinary, get_ordinary by done.
      rewrite lookup_insert_eq. simpl. by rewrite insert_insert_eq.
    + rewrite set_ordinary, get_ordinary by done. by rewrite Hv.
  - simpl. rewrite !set_ordinary, get_ordinary by done.
    rewrite lookup_insert_eq. simpl. by rewrite insert_insert_eq.
Qed.

Lemma bumpDay_numbers o day :
  ordinary_key day -> day_numbers o -> day_numbers (bumpDay o day).
Proof.
  intros Hk Ho. rewrite bumpDay_ordinary by done.
  intros key v. rewrite lookup_insert. case_decide; [|apply Ho].
  intros [= <-]. eauto.
Qed.

Lemma day_count_insert_eq o day n : day_count (<[day := Count n]> o) day = n.
Proof. unfold day_count. by rewrite lookup_insert_eq. Qed.

Lemma day_count_insert_ne o day key v :
  day <> key -> day_count (<[day := v]> o) key = day_count o key.
Proof. intros. unfold day_count. by rewrite lookup_insert_ne. Qed.

Lemma fold_bumpDay_lookup days o key :
  Forall ordinary_key days -> day_numbers o ->
  fold_left bumpDay days o !! key =
    if decide (occurrences key days = 0) then o !! key
    else Some (Count (day_count o key + N.of_nat (occurrences key days))).
Proof.
  unfold occurrences.
  revert o. induction days as [|d days IH]; intros o Hk Ho; [done|].
  inversion_clear Hk as [|? ? Hd Hds]. cbn [fold_left].
  rewrite IH by auto using bumpDay_numbers.
  rewrite bumpDay_ordinary by done.
  rewrite filter_cons.
  destruct (decide (d = key)) as [->|Hne].
  - rewrite lookup_insert_eq, day_count_insert_eq. cbn [length].
    repeat case_decide; try lia; f_equal; f_equal; lia.
  - rewrite lookup_insert_ne, day_count_insert_ne by done.
    repeat case_decide; try lia; done.
Qed.

Lemma fold_bumpDay_numbers days o :
  Forall ordinary_key days -> day_numbers o -> day_numbers (fold_left bumpDay days o).
Proof.
  revert o. induction days as [|d days IH]; intros o Hk Ho; [done|].
  inversion_clear Hk. simpl. apply IH; auto using bumpDay_numbers.
Qed.

Lemma fold_bumpDay_Permutation days days' o :
  Forall ordinary_key days -> day_numbers o -> days ≡ₚ days' ->
  fold_left bumpDay days o = fold_left bumpDay days' o.
Proof.
  intros Hk Ho Hp. apply map_eq. intros key.
  assert (Forall ordinary_key days') by (eapply Permutation_Forall; eauto).
  rewrite !fold_bumpDay_lookup by done.
  assert (occurrences key days = occurrences key days') as ->; [|done].
  unfold occurrences. by rewrite Hp.
Qed.

Lemma forEach_app {A S} (f : S -> A -> Result S) xs ys acc :
  forEach f (xs ++ ys) acc = (acc' <- forEach f xs acc ;; forEach f ys acc').
Proof.
  revert acc. induction xs as [|x xs IH]; intros acc; [done|].
  simpl. destruct (f acc x); simpl; [apply IH|done].
Qed.

Lemma forEach_concat {A B S} (f : S -> A -> Result S) (g : B -> list A) xs acc :
  forEach (fun acc x => forEach f (g x) acc) xs acc
  = forEach f (concat (map g xs)) acc.
Proof.
  revert acc. induction xs as [|x xs IH]; intros acc; [done|].
  simpl. rewrite forEach_app. destruct (forEach f (g x) acc); simpl; [apply IH|done].
Qed.

Section DailyFacts.

Variable Date_toISOString : string -> option string.

(** The platform's ISO form starts with the year. *)
Hypothesis Date_iso_year :
  forall d iso, Date_toISOString d = Some iso ->
                exists ch r, iso = String ch r /\ year_start ch = true.

Lemma countCommit_commit_day o commit :
  Summarizer.countCommit Date_toISOString o commit =
    (d <- commit_day Date_toISOString commit ;;
     Ok (match d with Some day => bumpDay o day | None => o end)).
Proof.
  unfold Summarizer.countCommit, commit_day.
  destruct (Js.falsy_string (date commit)); [done|].
  destruct (Date_toISOString _); done.
Qed.

Lemma day_of_ordinary commit day : day_of Date_toISOString commit = Some day -> ordinary_key day.
Proof.
  unfold day_of, commit_day.
  destruct (Js.falsy_string (date commit)); [done|].
  destruct (Date_toISOString _) as [iso|] eqn:Hiso; [|done].
  intros [= <-]. destruct (Date_iso_year _ _ Hiso) as (ch & r & -> & Hch).
  destruct (hd_split_T ch r Hch) as [seg ->]. by apply year_start_ordinary.
Qed.

Lemma omap_day_of_ordinary cs : Forall ordinary_key (omap (day_of Date_toISOString) cs).
Proof.
  apply Forall_forall. intros day Hin.
  apply list_elem_of_omap in Hin as (commit & _ & Hday).
  by eapply day_of_ordinary.
Qed.

Lemma forEach_countCommit cs o :
  forEach (Summarizer.countCommit Date_toISOString) cs o =
    if forallb (dated Date_toISOString) cs then Ok (fold_left bumpDay (omap (day_of Date_toISOString) cs) o)
    else Throw RangeError.
Proof.
  revert o. induction cs as [|commit cs IH]; intros o; [done|].
  cbn [forEach forallb]. rewrite countCommit_commit_day.
  change (omap (day_of Date_toISOString) (commit :: cs))
    with (match day_of Date_toISOString commit with
          | Some day => day :: omap (day_of Date_toISOString) cs
          | None => omap (day_of Date_toISOString) cs
          end).
  unfold dated at 1, day_of at 1.
  destruct (commit_day Date_toISOString commit) as [[day|]|e] eqn:Hday; simpl.
  - apply IH.
  - apply IH.
  - unfold commit_day in Hday.
    destruct (Js.falsy_string (date commit)); [done|].
    destruct (Date_toISOString _); [done|]. by injection Hday as <-.
Qed.

Lemma commitsByDay_flat data :
  Summarizer.commitsByDay Date_toISOString data =
    if forallb (dated Date_toISOString) (all_commits data)
    then Ok (fold_left bumpDay (omap (day_of Date_toISOString) (all_commits data)) ∅)
    else Throw RangeError.
Proof.
  unfold Summarizer.commitsByDay, all_commits.
  rewrite (forEach_concat (Summarizer.countCommit Date_toISOString) commits).
  apply forEach_countCommit.
Qed.

Lemma commitsByDay_Permutation data data' :
  all_commits data ≡ₚ all_commits data' ->
  Summarizer.commitsByDay Date_toISOString data
  = Summarizer.commitsByDay Date_toISOString data'.
Proof.
  intros Hp. rewrite !commitsByDay_flat.
  assert (forallb (dated Date_toISOString) (all_commits data) = forallb (dated Date_toISOString) (all_commits data')) as ->.
  { apply eq_true_iff_eq. rewrite !forallb_forall.
    split; intros H x Hx; apply H; revert Hx;
      rewrite <- !list_elem_of_In; by rewrite Hp. }
  destruct (forallb (dated Date_toISOString) (all_commits data')); [|done]. f_equal.
  apply fold_bumpDay_Permutation; [apply omap_day_of_ordinary|done|by rewrite Hp].
Qed.

End DailyFacts.

(** *** The ecosystem aggregation *)

Lemma addRepo_addTotal o t r :
  Summarizer.addRepo (o, t) r =
    (addTotal o (ecosystem r) (N.of_nat (length (commits r))),
     (t + N.of_nat (length (commits r)))%N).
Proof. reflexivity. Qed.

Lemma addTotal_ordinary o label n :
  ordinary_key label -> eco_numbers o ->
  addTotal o label n = <[label := Sum (eco_total o label + n)]> o.
Proof.
  intros Hk Ho. unfold addTotal, eco_total.
  rewrite (get_ordinary o) by done.
  destruct (o !! label) as [v|] eqn:Hv.
  - destruct (Ho _ _ Hv) as [m ->]. simpl.
    destruct (N.eqb m 0) eqn:Hm.
    + apply N.eqb_eq in Hm. subst m.
      rewrite !set_ordinary, get_ordinary by done.
      rewrite lookup_insert_eq. simpl. by rewrite insert_insert_eq.
    + rewrite set_ordinary, get_ordinary by done. by rewrite Hv.
  - simpl. rewrite !set_ordinary, get_ordinary by done.
    rewrite lookup_insert_eq. simpl. by rewrite insert_insert_eq.
Qed.

Lemma addTotal_numbers o label n :
  ordinary_key label -> eco_numbers o -> eco_numbers (addTotal o label n).
Proof.
  intros Hk Ho. rewrite addTotal_ordinary by done.
  intros key v. rewrite lookup_insert. case_decide; [|apply Ho].
  intros [= <-]. eauto.
Qed.

Lemma eco_total_insert_eq o label n : eco_total (<[label := Sum n]> o) label = n.
Proof. unfold eco_total. by rewrite lookup_insert_eq. Qed.

Lemma eco_total_insert_ne o label key v :
  label <> key -> eco_total (<[label := v]> o) key = eco_total o key.
Proof. intros. unfold eco_total. by rewrite lookup_insert_ne. Qed.

Lemma all_commits_cons r data : all_commits (r :: data) = commits r ++ all_commits data.
Proof. reflexivity. Qed.

Lemma all_commits_app data1 data2 :
  all_commits (data1 ++ data2) = all_commits data1 ++ all_commits data2.
Proof. unfold all_commits. by rewrite map_app, concat_app. Qed.

Lemma all_commits_Permutation data data' :
  data ≡ₚ data' -> all_commits data ≡ₚ all_commits data'.
Proof.
  induction 1 as [|r l l' _ IH|r1 r2 l|l1 l2 l3 _ IH1 _ IH2].
  - done.
  - rewrite !all_commits_cons. by rewrite IH.
  - rewrite !all_commits_cons, !app_assoc. f_equiv. apply Permutation_app_comm.
  - by etrans.
Qed.

Lemma commits_under_cons label r data :
  commits_under label (r :: data) =
    ((if decide (ecosystem r = label) then N.of_nat (length (commits r)) else 0)
     + commits_under label data)%N.
Proof.
  unfold commits_under. rewrite filter_cons. case_decide; [|done].
  rewrite all_commits_cons, length_app. lia.
Qed.

Lemma commits_under_absent label data :
  label ∉ map ecosystem data -> commits_under label data = 0%N.
Proof.
  induction data as [|r data IH]; intros Hin; [done|].
  rewrite commits_under_cons. cbn [map] in Hin.
  apply not_elem_of_cons in Hin as [Hne Hin].
  rewrite decide_False by done. by rewrite IH.
Qed.

Lemma fold_addRepo_state data o t :
  Forall (fun r => ordinary_key (ecosystem r)) data -> eco_numbers o ->
  let '(o', t') := fold_left Summarizer.addRepo data (o, t) in
  eco_numbers o'
  /\ t' = (t + N.of_nat (length (all_commits data)))%N
  /\ forall label,
       o' !! label =
         if decide (label ∈ map ecosystem data)
         then Some (Sum (eco_total o label + commits_under label data))
         else o !! label.
Proof.
  revert o t. induction data as [|r data IH]; intros o t Hk Ho.
  - cbn [fold_left map]. split; [done|]. split; [unfold all_commits; simpl; lia|].
    intros label. by rewrite decide_False by apply not_elem_of_nil.
  - apply Forall_cons in Hk as [Hr Hdata]. cbn [fold_left].
    rewrite addRepo_addTotal.
    specialize (IH (addTotal o (ecosystem r) (N.of_nat (length (commits r))))
                   (t + N.of_nat (length (commits r)))%N Hdata
                   (addTotal_numbers _ _ _ Hr Ho)).
    destruct (fold_left Summarizer.addRepo data _) as [o' t'].
    destruct IH as (Hnum & Ht & Hlook). split; [done|]. split.
    + rewrite Ht, all_commits_cons, length_app. lia.
    + intros label. rewrite Hlook, commits_under_cons.
      rewrite addTotal_ordinary by done. cbn [map].
      destruct (decide (ecosystem r = label)) as [<-|Hne].
      * rewrite eco_total_insert_eq, lookup_insert_eq.
        rewrite (decide_True (P := _ ∈ _ :: _)) by (apply elem_of_cons; auto).
        case_decide as Hin; f_equal; f_equal; [lia|].
        rewrite (commits_under_absent _ _ Hin). lia.
      * rewrite eco_total_insert_ne, lookup_insert_ne by done.
        destruct (decide (label ∈ map ecosystem data)) as [Hin|Hin].
        -- rewrite decide_True by (apply elem_of_cons; auto). f_equal.
        -- rewrite decide_False; [done|].
           intros [?|?]%elem_of_cons; [congruence|done].
Qed.

Lemma commitsByEcosystem_overall data :
  snd (Summarizer.commitsByEcosystem data) = N.of_nat (length (all_commits data)).
Proof.
  unfold Summarizer.commitsByEcosystem.
  assert (forall o t, snd (fold_left Summarizer.addRepo data (o, t))
                      = (t + N.of_nat (length (all_commits data)))%N) as H.
  { induction data as [|r data IH]; intros o t; [simpl; lia|].
    cbn [fold_left]. rewrite addRepo_addTotal, IH, all_commits_cons, length_app. lia. }
  rewrite H. lia.
Qed.

Lemma sum_of_values_insert o label n :
  o !! label = None ->
  Summarizer.sum_of_values (<[label := Sum n]> o)
  = (fun a => (a + n)%N) <$> Summarizer.sum_of_values o.
Proof.
  intros Hfresh. unfold Summarizer.sum_of_values.
  rewrite map_fold_insert_L; [|intros j1 j2 [] [] []; intros; f_equal; lia|done].
  by destruct (map_fold _ _ o).
Qed.

Lemma sum_of_values_update o label m n t :
  o !! label = Some (Sum m) ->
  Summarizer.sum_of_values o = Some t ->
  Summarizer.sum_of_values (<[label := Sum (m + n)]> o) = Some (t + n)%N.
Proof.
  intros Hlabel Hsum.
  rewrite <- insert_delete_eq.
  rewrite sum_of_values_insert by apply lookup_delete_eq.
  revert Hsum. unfold Summarizer.sum_of_values at 1.
  rewrite (map_fold_delete_L _ _ label (Sum m) o);
    [|intros j1 j2 [] [] []; intros; f_equal; lia|done].
  fold (Summarizer.sum_of_values (delete label o)).
  destruct (Summarizer.sum_of_values (delete label o)) as [t0|]; [|done].
  intros [= <-]. simpl. f_equal. lia.
Qed.

Lemma sum_of_values_addTotal o label n t :
  ordinary_key label -> eco_numbers o ->
  Summarizer.sum_of_values o = Some t ->
  Summarizer.sum_of_values (addTotal o label n) = Some (t + n)%N.
Proof.
  intros Hk Ho Hsum. rewrite addTotal_ordinary by done. unfold eco_total.
  destruct (o !! label) as [v|] eqn:Hv.
  - destruct (Ho _ _ Hv) as [m ->]. by apply sum_of_values_update.
  - rewrite sum_of_values_insert, Hsum by done. done.
Qed.

Lemma fold_addRepo_sum data o t :
  Forall (fun r => ordinary_key (ecosystem r)) data -> eco_numbers o ->
  Summarizer.sum_of_values o = Some t ->
  Summarizer.sum_of_values (fst (fold_left Summarizer.addRepo data (o, t)))
  = Some (snd (fold_left Summarizer.addRepo data (o, t))).
Proof.
  revert o t. induction data as [|r data IH]; intros o t Hk Ho Hsum; [done|].
  apply Forall_cons in Hk as [Hr Hdata]. cbn [fold_left]. rewrite addRepo_addTotal.
  apply IH; auto using addTotal_numbers, sum_of_values_addTotal.
Qed.

(** X21.  For labels that are ordinary keys, [overallTotal] is the sum of
    the values of [totals], and the number of commit records. *)
Lemma overallTotal_sum_of_ordinary_totals Date_toISOString data :
  Forall (fun r => ordinary_key (ecosystem r)) data ->
  forall totals overallTotal,
    In (Summarizer.WriteFileSync Summarizer.ECO_OUTPUT_PATH (JEcosystem totals overallTotal))
       (Summarizer.effects (Summarizer.summarizeData Date_toISOString (Some (JsonText data)))) ->
    Summarizer.sum_of_values totals = Some overallTotal
    /\ overallTotal = N.of_nat (length (all_commits data)).
Proof.
  intros Hk totals overallTotal. unfold Summarizer.summarizeData. cbn [JSON_parse bind].
  destruct (Summarizer.commitsByDay Date_toISOString data) as [byDay|e]; cbn [bind].
  - pose proof (commitsByEcosystem_overall data) as Hall.
    pose proof (fold_addRepo_sum data ∅ 0%N Hk) as Hsum.
    fold (Summarizer.commitsByEcosystem data) in Hsum.
    destruct (Summarizer.commitsByEcosystem data) as [byEco total].
    cbn [Summarizer.effects app In]. intros H.
    repeat (destruct H as [H|H]; try discriminate H; try done).
    injection H as <- <-. simpl in *. split; [|done].
    apply Hsum; [|done]. intros key v. by rewrite lookup_empty.
  - cbn [Summarizer.effects In]. intros [H|[]]. discriminate H.
Qed.

(** *** Reordering the input *)

Lemma reordered_same_counts data data' : reordered data data' -> same_counts data data'.
Proof.
  induction 1 as [data data' Hp|data1 data2 r commits' Hp|d1 d2 d3 _ IH1 _ IH2].
  - split; [|split].
    + intros label. by rewrite Hp.
    + intros label. unfold commits_under. f_equal. apply Permutation_length.
      apply all_commits_Permutation. by rewrite Hp.
    + by apply all_commits_Permutation.
  - split; [|split].
    + intros label. by rewrite !map_app.
    + intros label. unfold commits_under. f_equal.
      rewrite !filter_app, !filter_cons. cbn [ecosystem].
      case_decide; [|done].
      rewrite !all_commits_app, !all_commits_cons, !length_app. cbn [commits].
      by rewrite (Permutation_length Hp).
    + rewrite !all_commits_app, !all_commits_cons. cbn [commits]. by rewrite Hp.
  - destruct IH1 as (Ha1 & Hb1 & Hc1), IH2 as (Ha2 & Hb2 & Hc2).
    split; [|split].
    + intros label. by rewrite Ha1.
    + intros label. by rewrite Hb1.
    + by etrans.
Qed.

Lemma same_counts_ordinary data data' :
  same_counts data data' ->
  Forall (fun r => ordinary_key (ecosystem r)) data ->
  Forall (fun r => ordinary_key (ecosystem r)) data'.
Proof.
  intros (Hlabels & _ & _). rewrite !Forall_forall. intros Hk r Hr.
  assert (ecosystem r ∈ map ecosystem data) as Hin.
  { apply Hlabels. apply list_elem_of_fmap. eauto. }
  apply list_elem_of_fmap in Hin as (r0 & -> & Hr0). by apply Hk.
Qed.

Lemma commitsByEcosystem_same_counts data data' :
  same_counts data data' ->
  Forall (fun r => ordinary_key (ecosystem r)) data ->
  Summarizer.commitsByEcosystem data = Summarizer.commitsByEcosystem data'.
Proof.
  intros Hsame Hk. pose proof (same_counts_ordinary _ _ Hsame Hk) as Hk'.
  destruct Hsame as (Hlabels & Hunder & Hall).
  pose proof (fold_addRepo_state data ∅ 0%N Hk) as H.
  pose proof (fold_addRepo_state data' ∅ 0%N Hk') as H'.
  unfold Summarizer.commitsByEcosystem.
  destruct (fold_left Summarizer.addRepo data _) as [o t].
  destruct (fold_left Summarizer.addRepo data' _) as [o' t'].
  destruct H as (_ & -> & Hlook); [intros ? ?; by rewrite lookup_empty|].
  destruct H' as (_ & -> & Hlook'); [intros ? ?; by rewrite lookup_empty|].
  f_equal.
  - apply map_eq. intros label. rewrite Hlook, Hlook', Hunder.
    destruct (decide (label ∈ map ecosystem data)) as [Hin|Hin].
    + by rewrite decide_True by by apply Hlabels.
    + by rewrite decide_False by (intros ?; by apply Hin, Hlabels).
  - by rewrite (Permutation_length Hall).
Qed.

(** With labels that are ordinary keys, a reordered input gives the same
    run of the model: the same console messages, the same exception if any,
    and summary objects that are the same maps. *)
Lemma summarizeData_reordered Date_toISOString data data' :
  (forall d iso, Date_toISOString d = Some iso ->
                 exists ch r, iso = String ch r /\ year_start ch = true) ->
  Forall (fun r => ordinary_key (ecosystem r)) data ->
  reordered data data' ->
  Summarizer.summarizeData Date_toISOString (Some (JsonText data))
  = Summarizer.summarizeData Date_toISOString (Some (JsonText data')).
Proof.
  intros Hiso Hk Hre. apply reordered_same_counts in Hre.
  unfold Summarizer.summarizeData. cbn [JSON_parse bind].
  rewrite (commitsByDay_Permutation Date_toISOString Hiso data data') by apply Hre.
  by rewrite (commitsByEcosystem_same_counts data data').
Qed.

(** *** The claims about the summarizer *)

Lemma day_of_utc_day Date_toISOString commit :
  Date_toISOString EmptyString = None ->
  day_of Date_toISOString commit = utc_day Date_toISOString commit.
Proof.
  intros Hempty. unfold day_of, commit_day, utc_day.
  destruct (date commit) as [[|ch d]|]; simpl; [by rewrite Hempty| |done].
  by destruct (Date_toISOString (String ch d)).
Qed.

Lemma occurrences_omap {A} (f : A -> option string) day xs :
  occurrences day (omap f xs) = length (filter (fun x => f x = Some day) xs).
Proof.
  unfold occurrences. induction xs as [|x xs IH]; [done|].
  rewrite filter_cons.
  change (omap f (x :: xs))
    with (match f x with Some y => y :: omap f xs | None => omap f xs end).
  destruct (f x) as [y|] eqn:Hy.
  - rewrite filter_cons. destruct (decide (y = day)) as [->|Hne].
    + rewrite decide_True by done. simpl. by rewrite IH.
    + rewrite decide_False by congruence. done.
  - rewrite decide_False by done. done.
Qed.

Lemma commitsByEcosystem_without_dates data :
  Summarizer.commitsByEcosystem (map without_dates data)
  = Summarizer.commitsByEcosystem data.
Proof.
  unfold Summarizer.commitsByEcosystem. generalize (∅ : gmap string EcoTotal, 0%N).
  induction data as [|r data IH]; intros acc; [done|].
  cbn [map fold_left]. rewrite IH. f_equal.
  destruct acc as [o t]. unfold Summarizer.addRepo, without_dates.
  cbn [ecosystem commits]. by rewrite length_map.
Qed.

(** C7.  When every present date is one the platform accepts, the
    summarizer ends normally; the daily file counts, under each day, the
    commits whose date is present and falls on that day, so a commit without
    a date is under no day; the ecosystem file is the one the same
    collection gives with every date removed, its overall total is the number
    of all commits, and the total of a label that is an ordinary key is the
    number of commits of the repositories under it. *)
Theorem absent_dates_skipped_by_day_counted_by_ecosystem
    (Date_toISOString : string -> option string) (data : list RepoCommitHistory) :
  Date_toISOString EmptyString = None ->
  (forall d iso, Date_toISOString d = Some iso ->
                 exists ch r, iso = String ch r /\ year_start ch = true) ->
  (forall commit d, commit ∈ all_commits data -> date commit = Some d ->
                    is_Some (Date_toISOString d)) ->
  exists byDay totals overallTotal,
    Summarizer.completion
      (Summarizer.summarizeData Date_toISOString (Some (JsonText data))) = Ok tt
    /\ Summarizer.writes
         (Summarizer.summarizeData Date_toISOString (Some (JsonText data)))
       = [(Summarizer.DAILY_OUTPUT_PATH, JDaily byDay);
          (Summarizer.ECO_OUTPUT_PATH, JEcosystem totals overallTotal)]
    /\ (forall day,
          byDay !! day =
            match length (filter (fun commit => utc_day Date_toISOString commit = Some day)
                                 (all_commits data)) with
            | 0 => None
            | n => Some (Count (N.of_nat n))
            end)
    /\ (totals, overallTotal) = Summarizer.commitsByEcosystem (map without_dates data)
    /\ overallTotal = N.of_nat (length (all_commits data))
    /\ (Forall (fun r => ordinary_key (ecosystem r)) data ->
        forall label, label ∈ map ecosystem data ->
                      totals !! label = Some (Sum (commits_under label data))).
Proof.
  intros Hempty Hiso Hvalid.
  assert (forallb (dated Date_toISOString) (all_commits data) = true) as Hdated.
  { apply forallb_forall. intros commit Hin. apply list_elem_of_In in Hin.
    unfold dated, commit_day.
    destruct (date commit) as [d|] eqn:Hd; [|done].
    destruct (Js.falsy_string (Some d)); [done|]. cbn [default id].
    destruct (Hvalid commit d Hin Hd) as [iso ->]. done. }
  pose proof (commitsByDay_flat Date_toISOString data) as Hday.
  rewrite Hdated in Hday.
  destruct (Summarizer.commitsByEcosystem data) as [totals overallTotal] eqn:Heco.
  exists (fold_left bumpDay (omap (day_of Date_toISOString) (all_commits data)) ∅),
         totals, overallTotal.
  unfold Summarizer.summarizeData. cbn [JSON_parse bind]. rewrite Hday. cbn [bind].
  rewrite Heco. split; [done|]. split; [done|]. split; [|split; [|split]].
  - intros day.
    rewrite fold_bumpDay_lookup;
      [|by apply omap_day_of_ordinary|intros ? ?; by rewrite lookup_empty].
    rewrite occurrences_omap.
    rewrite (list_filter_iff (fun commit => day_of Date_toISOString commit = Some day)
               (fun commit => utc_day Date_toISOString commit = Some day))
      by (intros commit; by rewrite day_of_utc_day).
    destruct (length _) as [|n]; [done|].
    rewrite decide_False by done. unfold day_count. rewrite lookup_empty.
    f_equal.
  - by rewrite commitsByEcosystem_without_dates.
  - pose proof (commitsByEcosystem_overall data) as H. by rewrite Heco in H.
  - intros Hk label Hin.
    pose proof (fold_addRepo_state data ∅ 0%N Hk) as H.
    fold (Summarizer.commitsByEcosystem data) in H. rewrite Heco in H.
    destruct H as (_ & _ & ->); [intros ? ?; by rewrite lookup_empty|].
    rewrite decide_True by done. unfold eco_total. rewrite lookup_empty.
    f_equal.
Qed.

(** The sample platform meets the two assumptions on the Date class. *)
Lemma sample_Date_empty : Sample.Date_toISOString EmptyString = None.
Proof. reflexivity. Qed.

Lemma sample_Date_iso_year d iso :
  Sample.Date_toISOString d = Some iso ->
  exists ch r, iso = String ch r /\ year_start ch = true.
Proof.
  unfold Sample.Date_toISOString.
  destruct (Sample.has_shape Sample.timestamp_shape d) eqn:Hshape; [|done].
  cbn [andb]. case_match; [|done].
  intros [= <-]. destruct d as [|ch r]; [done|].
  cbn in Hshape. apply andb_prop in Hshape as [Hch _].
  exists ch, (String.substring 0 18 r +:+ ".000Z"). split; [done|].
  unfold year_start. by rewrite Hch.
Qed.

Example sample_Date_day :
  Sample.Date_toISOString "2024-01-01T23:00:00Z" = Some "2024-01-01T23:00:00.000Z".
Proof. reflexivity. Qed.

(** The example of the specification. *)
Example summarizeData_example :
  Summarizer.writes
    (Summarizer.summarizeData Sample.Date_toISOString
       (Some (JsonText
          [{| repository := "a/b"; ecosystem := "Eco1";
              commits := [Sample.commit_at (Some "2024-01-01T10:00:00Z");
                          Sample.commit_at (Some "2024-01-01T23:00:00Z");
                          Sample.commit_at (Some "2024-01-02T00:00:00Z")] |}])))
  = [(Summarizer.DAILY_OUTPUT_PATH,
      JDaily (<["2024-01-01" := Count 2]> (<["2024-01-02" := Count 1]> ∅)));
     (Summarizer.ECO_OUTPUT_PATH, JEcosystem (<["Eco1" := Sum 3]> ∅) 3)].
Proof. vm_compute. reflexivity. Qed.

(** The claim on a collection with a dated and an undated commit. *)
Lemma absent_dates_skipped_by_day_counted_by_ecosystem_witness :
  exists byDay totals overallTotal,
    Summarizer.completion
      (Summarizer.summarizeData Sample.Date_toISOString (Some (JsonText dated_and_undated)))
    = Ok tt
    /\ Summarizer.writes
         (Summarizer.summarizeData Sample.Date_toISOString (Some (JsonText dated_and_undated)))
       = [(Summarizer.DAILY_OUTPUT_PATH, JDaily byDay);
          (Summarizer.ECO_OUTPUT_PATH, JEcosystem totals overallTotal)]
    /\ byDay !! "2024-01-01" = Some (Count 1)
    /\ overallTotal = 2%N
    /\ totals !! "Ethereum" = Some (Sum 2).
Proof.
  destruct (absent_dates_skipped_by_day_counted_by_ecosystem
              Sample.Date_toISOString dated_and_undated)
    as (byDay & totals & overallTotal & Hend & Hwrites & Hday & _ & Hall & Hlabel).
  - reflexivity.
  - apply sample_Date_iso_year.
  - intros commit d Hin Hd.
    repeat (apply elem_of_cons in Hin as [->|Hin];
            [first [discriminate Hd | injection Hd as <-; by eexists]|]).
    by apply elem_of_nil in Hin.
  - exists byDay, totals, overallTotal.
    split; [exact Hend|]. split; [exact Hwrites|]. split; [|split].
    + rewrite Hday. reflexivity.
    + exact Hall.
    + rewrite Hlabel; [reflexivity| |].
      * repeat constructor.
      * apply elem_of_cons. by left.
Defined.

(** C5.  A collection whose only entry is filed under the label
    [constructor]: the lookup finds the function [Object] of the prototype,
    so the count is appended to its text; under [__proto__] nothing is
    stored.  In both runs [overallTotal] is 1 and is not the sum of the
    values of [totals]. *)
Theorem overallTotal_not_sum_under_prototype_label :
  let data (label : string) :=
    [{| repository := "octo/alpha"; ecosystem := label;
        commits := [Sample.commit_at (Some "2024-01-01T10:00:00Z")] |}] in
  Summarizer.commitsByEcosystem (data "constructor")
    = (<["constructor" := SumText "function Object() { [native code] }1"]> ∅, 1%N)
  /\ Summarizer.sum_of_values (fst (Summarizer.commitsByEcosystem (data "constructor")))
     = None
  /\ Summarizer.commitsByEcosystem (data "__proto__") = (∅, 1%N)
  /\ Summarizer.sum_of_values (fst (Summarizer.commitsByEcosystem (data "__proto__")))
     = Some 0%N
  /\ Summarizer.commitsByEcosystem (data "Ethereum") = (<["Ethereum" := Sum 1]> ∅, 1%N).
Proof. repeat split; vm_compute; reflexivity. Qed.

(** C6.  Two entries under the label [constructor], in both orders: the
    text stored for the label keeps the counts in the order of the input. *)
Theorem ecosystem_totals_depend_on_order_under_prototype_label :
  let first :=
    {| repository := "octo/alpha"; ecosystem := "constructor";
       commits := [Sample.commit_at None; Sample.commit_at None] |} in
  let second :=
    {| repository := "octo/beta"; ecosystem := "constructor";
       commits := [Sample.commit_at None] |} in
  reordered [first; second] [second; first]
  /\ Summarizer.commitsByEcosystem [first; second]
     = (<["constructor" := SumText "function Object() { [native code] }21"]> ∅, 3%N)
  /\ Summarizer.commitsByEcosystem [second; first]
     = (<["constructor" := SumText "function Object() { [native code] }12"]> ∅, 3%N)
  /\ Summarizer.summarizeData Sample.Date_toISOString (Some (JsonText [first; second]))
     <> Summarizer.summarizeData Sample.Date_toISOString (Some (JsonText [second; first])).
Proof.
  intros first second. split; [|split; [|split]].
  - apply reordered_entries. apply perm_swap.
  - vm_compute. reflexivity.
  - vm_compute. reflexivity.
  - vm_compute. discriminate.
Qed.

(** C9.  Without the input file the summarizer prints an error, returns,
    and writes no file. *)
Theorem summarizeData_missing_input (Date_toISOString : string -> option string) :
  let run := Summarizer.summarizeData Date_toISOString None in
  (exists msg, Summarizer.effects run
               = [Summarizer.ConsoleLog "Starting data summarization...";
                  Summarizer.ConsoleError msg])
  /\ Summarizer.writes run = []
  /\ Summarizer.completion run = Ok tt.
Proof. cbn. eauto. Qed.

(** C10.  A commit whose date is present, not empty, and refused by the
    platform makes the summarizer end with the exception of [toISOString],
    before any file is written. *)
Theorem summarizeData_invalid_date
    (Date_toISOString : string -> option string) (data : list RepoCommitHistory)
    (commit : CommitRecord) (d : string) :
  commit ∈ all_commits data ->
  date commit = Some d ->
  d <> EmptyString ->
  Date_toISOString d = None ->
  let run := Summarizer.summarizeData Date_toISOString (Some (JsonText data)) in
  Summarizer.completion run = Throw RangeError
  /\ Summarizer.writes run = [].
Proof.
  intros Hin Hd Hne Hinvalid.
  assert (Summarizer.commitsByDay Date_toISOString data = Throw RangeError) as Hthrow.
  { unfold Summarizer.commitsByDay, all_commits in *.
    rewrite (forEach_concat (Summarizer.countCommit Date_toISOString) commits).
    generalize (∅ : gmap string DayCount).
    induction (concat (map commits data)) as [|c cs IH]; intros o.
    - by apply elem_of_nil in Hin.
    - cbn [forEach]. apply elem_of_cons in Hin as [<-|Hin].
      + unfold Summarizer.countCommit. rewrite Hd.
        destruct d; [done|]. cbn [Js.falsy_string default id]. by rewrite Hinvalid.
      + destruct (Summarizer.countCommit Date_toISOString o c) as [o'|e] eqn:Hc.
        * cbn [bind]. by apply IH.
        * unfold Summarizer.countCommit in Hc.
          destruct (Js.falsy_string (date c)); [done|].
          destruct (Date_toISOString (default EmptyString (date c))); [done|].
          injection Hc as <-. done. }
  cbn. unfold Summarizer.summarizeData. cbn [JSON_parse bind].
  rewrite Hthrow. done.
Qed.

(** A run on a collection that holds a date the platform refuses. *)
Lemma summarizeData_invalid_date_witness :
  let run :=
    Summarizer.summarizeData Sample.Date_toISOString
      (Some (JsonText
         [{| repository := "octo/alpha"; ecosystem := "Ethereum";
             commits := [Sample.commit_at None; Sample.commit_at (Some "yesterday")] |}])) in
  Summarizer.completion run = Throw RangeError /\ Summarizer.writes run = [].
Proof.
  apply (summarizeData_invalid_date Sample.Date_toISOString _
           (Sample.commit_at (Some "yesterday")) "yesterday").
  - apply elem_of_cons. right. apply elem_of_cons. by left.
  - reflexivity.
  - discriminate.
  - reflexivity.
Defined.

(** ** The ingestor *)

Import Ingestor Run.

Section LoopFacts.

Variable new_URL : string -> option URL.
Variable JSON_parse_line : string -> option ExportLine.
Variable listCommits : string -> ListCommitsRequest -> ApiResponse.
Variable octokitInstances : list string.

Local Abbreviation step := (Ingestor.step listCommits octokitInstances).
Local Abbreviation loop := (Ingestor.loop listCommits octokitInstances).

Lemma step_cases i r st : step_outcome listCommits i r st (step i r st).
Proof.
  unfold Ingestor.step. case_decide as Hin; [by constructor|].
  unfold fetchCommitsForRepo.
  set (octokit := nth (i mod length octokitInstances) octokitInstances EmptyString).
  fold (request_for r).
  destruct (listCommits octokit (request_for r)) as [found|error] eqn:Hresp.
  - by apply (step_saved listCommits i r st octokit found).
  - by apply (step_failed listCommits i r st octokit error).
Qed.

(** A property kept by every iteration holds when the loop ends. *)
Lemma loop_invariant (P : State -> Prop) :
  (forall i r st, P st -> P (step i r st)) ->
  forall repoDataList i st, P st -> P (loop i repoDataList st).
Proof.
  intros Hstep repoDataList.
  induction repoDataList as [|r rest IH]; intros i st HP; [done|].
  simpl. apply IH. by apply Hstep.
Qed.

End LoopFacts.

(** *** The output file along a trace *)

Lemma disk_after_app file t1 t2 :
  disk_after file (t1 ++ t2) = disk_after (disk_after file t1) t2.
Proof. unfold disk_after. apply fold_left_app. Qed.

Lemma disk_after_write file data :
  disk_after file [WriteFileSync OUTPUT_FILE_PATH (JCollection data)] = Some (JsonText data).
Proof. reflexivity. Qed.

Lemma writes_extend_app file t1 t2 :
  writes_extend file (t1 ++ t2)
  <-> writes_extend file t1 /\ writes_extend (disk_after file t1) t2.
Proof.
  revert file. induction t1 as [|e t1 IH]; intros file; [simpl; tauto|].
  cbn [app writes_extend]. rewrite IH.
  change (disk_after file (e :: t1)) with (disk_after (disk_after file [e]) t1).
  tauto.
Qed.

Lemma writes_extend_prefix file performed :
  writes_extend file performed ->
  saved file `prefix_of` saved (disk_after file performed).
Proof.
  revert file. induction performed as [|e rest IH]; intros file; [done|].
  intros [He Hrest]. etrans; [exact He|].
  change (disk_after file (e :: rest)) with (disk_after (disk_after file [e]) rest).
  by apply IH.
Qed.

Lemma writes_extend_take file performed k1 k2 :
  writes_extend file performed -> k1 <= k2 ->
  saved (disk_after file (take k1 performed))
    `prefix_of` saved (disk_after file (take k2 performed)).
Proof.
  intros Hext Hle.
  assert (take k2 performed = take k1 performed ++ take (k2 - k1) (drop k1 performed)) as ->.
  { rewrite take_take_drop. f_equal. lia. }
  rewrite disk_after_app. apply writes_extend_prefix.
  rewrite <- (take_drop k1 performed), writes_extend_app in Hext.
  destruct Hext as [_ Hext].
  rewrite <- (take_drop (k2 - k1) (drop k1 performed)), writes_extend_app in Hext.
  tauto.
Qed.

Lemma writes_extend_silent file performed :
  Forall (fun e => match e with WriteFileSync _ _ => False | _ => True end) performed ->
  writes_extend file performed /\ disk_after file performed = file.
Proof.
  induction 1 as [|e rest He _ [IH1 IH2]]; [done|].
  assert (disk_after file [e] = file) as Hsame by by destruct e.
  change (disk_after file (e :: rest)) with (disk_after (disk_after file [e]) rest).
  cbn [writes_extend]. rewrite Hsame. done.
Qed.

(** *** A successful fetch is saved at once *)

Lemma quiet_silent performed :
  Forall quiet performed ->
  Forall (fun e => match e with WriteFileSync _ _ => False | _ => True end) performed.
Proof. intros H. eapply Forall_impl; [exact H|]. by intros [| | | |]. Qed.

Lemma disk_after_quiet file performed :
  Forall quiet performed -> disk_after file performed = file.
Proof. intros H. by apply writes_extend_silent, quiet_silent. Qed.

Lemma saved_at_once_old file t ext k octokit request found :
  saved_at_once file t ->
  k < length t ->
  (t ++ ext) !! k = Some (ListCommits octokit request (Data found)) ->
  exists eco,
    (t ++ ext) !! S k =
      Some (WriteFileSync OUTPUT_FILE_PATH
              (JCollection (saved (disk_after file (take k (t ++ ext)))
                            ++ [entry_for request eco found]))).
Proof.
  intros Hold Hk Hlook. rewrite lookup_app_l in Hlook by done.
  destruct (Hold _ _ _ _ Hlook) as [eco Hnext]. exists eco.
  rewrite take_app_le by lia.
  pose proof (lookup_lt_Some _ _ _ Hnext).
  by rewrite lookup_app_l.
Qed.

Lemma saved_at_once_quiet file t ext :
  saved_at_once file t -> Forall quiet ext -> saved_at_once file (t ++ ext).
Proof.
  intros Hold Hext k octokit request found Hlook.
  destruct (decide (k < length t)); [by eapply saved_at_once_old|].
  rewrite lookup_app_r in Hlook by lia.
  apply list_elem_of_lookup_2 in Hlook.
  rewrite Forall_forall in Hext. by apply Hext in Hlook.
Qed.

Lemma saved_at_once_step file t first octokit request eco found :
  saved_at_once file t ->
  quiet first ->
  saved_at_once file
    (t ++ [first; ListCommits octokit request (Data found);
           WriteFileSync OUTPUT_FILE_PATH
             (JCollection (saved (disk_after file t) ++ [entry_for request eco found]))]).
Proof.
  intros Hold Hfirst k octokit' request' found' Hlook.
  destruct (decide (k < length t)); [by eapply saved_at_once_old|].
  rewrite lookup_app_r in Hlook by lia.
  destruct (k - length t) as [|[|[|j]]] eqn:Hk; simpl in Hlook.
  - injection Hlook as ->. done.
  - injection Hlook as <- <- <-. exists eco.
    rewrite lookup_app_r by lia.
    replace (S k - length t) with 2 by lia. cbn [lookup list_lookup].
    replace k with (length t + 1) by lia.
    rewrite take_app_add. cbn [take]. rewrite disk_after_app.
    rewrite (disk_after_quiet _ [first]) by (by constructor). done.
  - discriminate.
  - discriminate.
Qed.

(** *** What a trace asks and what fails *)

Lemma requested_app t1 t2 : requested (t1 ++ t2) = requested t1 ++ requested t2.
Proof. apply omap_app. Qed.

Lemma failed_app t1 t2 : failed (t1 ++ t2) = failed t1 ++ failed t2.
Proof. apply omap_app. Qed.

Lemma requested_lookup performed k octokit request response :
  performed !! k = Some (ListCommits octokit request response) ->
  request_key request ∈ requested performed.
Proof.
  intros Hk. apply list_elem_of_omap.
  exists (ListCommits octokit request response). split; [|done].
  by eapply list_elem_of_lookup_2.
Qed.

Lemma failed_lookup performed k octokit request error :
  performed !! k = Some (ListCommits octokit request (Failure error)) ->
  request_key request ∈ failed performed.
Proof.
  intros Hk. apply list_elem_of_omap.
  exists (ListCommits octokit request (Failure error)). split; [|done].
  by eapply list_elem_of_lookup_2.
Qed.

Lemma failed_requested performed key : key ∈ failed performed -> key ∈ requested performed.
Proof.
  intros (e & He & Hkey)%list_elem_of_omap. apply list_elem_of_omap.
  exists e. split; [done|]. by destruct e as [| | | ? ? []|].
Qed.

(** *** Invariants of the loop *)

Section RunFacts.

Variable new_URL : string -> option URL.
Variable JSON_parse_line : string -> option ExportLine.
Variable listCommits : string -> ListCommitsRequest -> ApiResponse.

Local Abbreviation step := (Ingestor.step listCommits).
Local Abbreviation loop := (Ingestor.loop listCommits).
Local Abbreviation fetchAll := (Ingestor.fetchAll new_URL JSON_parse_line listCommits).
Local Abbreviation main := (Ingestor.main new_URL JSON_parse_line listCommits).

Lemma step_durable file tokens i r st :
  durable file st -> durable file (step tokens i r st).
Proof.
  intros (Hdisk & Hext & Honce).
  destruct (step_cases listCommits tokens i r st) as [?|octokit found ? ?|octokit error ? ?].
  - done.
  - split; [|split]; cbn [trace allCommitsData].
    + by rewrite disk_after_app.
    + apply writes_extend_app. split; [done|].
      cbn [writes_extend]. unfold fetch_log.
      change (disk_after ?f [ConsoleLog ?m]) with f.
      change (disk_after ?f [ListCommits ?a ?b ?c]) with f.
      rewrite disk_after_write. cbn [saved]. rewrite Hdisk.
      repeat split; try done. by apply prefix_app_r.
    + rewrite <- Hdisk. by apply saved_at_once_step.
  - split; [|split]; cbn [trace allCommitsData].
    + rewrite disk_after_app, disk_after_quiet; [done|]. by repeat constructor.
    + apply writes_extend_app. split; [done|].
      apply writes_extend_silent. by repeat constructor.
    + apply saved_at_once_quiet; [done|]. by repeat constructor.
Qed.

Lemma loadProgress_durable file performed :
  Forall quiet performed ->
  let loaded := loadProgress file performed in
  Forall quiet (trace loaded) /\ allCommitsData loaded = saved file
  /\ processedRepos loaded = list_to_set (map repository (saved file)).
Proof.
  intros Hq. unfold loadProgress.
  destruct file as [[data|]|]; cbn; rewrite ?Forall_app; repeat split; try done;
    by repeat constructor.
Qed.

Lemma fetchAll_durable file tokens input_lines :
  durable file (fetchAll tokens file input_lines).
Proof.
  unfold Ingestor.fetchAll. apply loop_invariant; [intros; by apply step_durable|].
  match goal with |- context [loadProgress file ?p] =>
    destruct (loadProgress_durable file p) as (Hq & Hall & _); [by repeat constructor|]
  end.
  assert (Forall quiet
            (trace (loadProgress file
               [ConsoleLog "Starting GitHub commit history scraper...";
                ConsoleLog ("Loaded " +:+ Number_toString (N.of_nat (length tokens))
                            +:+ " GitHub token(s) for rotation.")]) ++
             [ConsoleLog ("Reading large file from " +:+ INPUT_FILE_PATH
                          +:+ "... (This may take a moment)");
              ConsoleLog ("Found " +:+ Number_toString
                            (N.of_nat (length (parseInputFile new_URL JSON_parse_line
                                                 input_lines)))
                          +:+ " total repositories to analyze.")])) as Hquiet.
  { apply Forall_app. split; [done|]. by repeat constructor. }
  split; [|split]; cbn [trace allCommitsData].
  - rewrite disk_after_quiet by done. by rewrite Hall.
  - by apply writes_extend_silent, quiet_silent.
  - intros k octokit request found Hlook.
    apply list_elem_of_lookup_2 in Hlook.
    rewrite Forall_forall in Hquiet. by apply Hquiet in Hlook.
Qed.

(** The trace of a whole run is durable too. *)
Lemma main_durable file GITHUB_TOKENS_STRING input_lines :
  writes_extend file (main GITHUB_TOKENS_STRING file input_lines)
  /\ saved_at_once file (main GITHUB_TOKENS_STRING file input_lines).
Proof.
  assert (forall e1 e2 : Effect, quiet e1 -> quiet e2 ->
            writes_extend file [e1; e2] /\ saved_at_once file [e1; e2]) as Hstop.
  { intros e1 e2 H1 H2. split.
    - apply writes_extend_silent, quiet_silent. by repeat constructor.
    - apply (saved_at_once_quiet file [] [e1; e2]); [|by repeat constructor].
      intros k ? ? ? Hk. by rewrite lookup_nil in Hk. }
  unfold Ingestor.main.
  destruct (Js.falsy_string GITHUB_TOKENS_STRING); [by apply Hstop|].
  destruct (length (parseTokens _) =? 0)%nat; [by apply Hstop|].
  destruct (fetchAll_durable file
              (parseTokens (default EmptyString GITHUB_TOKENS_STRING)) input_lines)
    as (Hdisk & Hext & Honce).
  split.
  - apply writes_extend_app. split; [done|].
    cbn [writes_extend].
    change (disk_after ?f [ConsoleLog ?m]) with f.
    rewrite disk_after_write. cbn [saved]. rewrite Hdisk. done.
  - intros k octokit request found Hlook.
    match type of Hlook with (?t ++ ?ext) !! _ = _ =>
      destruct (decide (k < length t)); [by eapply saved_at_once_old|];
      rewrite lookup_app_r in Hlook by lia;
      destruct (k - length t) as [|[|[|j]]]; discriminate Hlook
    end.
Qed.

Lemma step_keyed tokens i r st : keyed st -> keyed (step tokens i r st).
Proof.
  intros [Hnodup Hmarked].
  destruct (step_cases listCommits tokens i r st) as [?|octokit found Hnew ?|octokit error Hnew ?].
  - done.
  - split; cbn [allCommitsData processedRepos]; rewrite map_app.
    + apply NoDup_app. split; [done|]. split; [|apply NoDup_singleton].
      intros key Hkey ->%list_elem_of_singleton. by apply Hnew, Hmarked.
    + intros key Hkey. apply elem_of_app in Hkey as [Hkey|Hkey].
      * apply Hmarked in Hkey. set_solver.
      * apply list_elem_of_singleton in Hkey. subst key. set_solver.
  - split; cbn [allCommitsData processedRepos]; [done|].
    intros key Hkey. apply Hmarked in Hkey. set_solver.
Qed.

Lemma step_extends tokens i r st :
  allCommitsData st `prefix_of` allCommitsData (step tokens i r st).
Proof.
  destruct (step_cases listCommits tokens i r st); cbn [allCommitsData];
    [done|by apply prefix_app_r|done].
Qed.

Lemma fetchAll_keyed file tokens input_lines :
  NoDup (map repository (saved file)) ->
  keyed (fetchAll tokens file input_lines)
  /\ saved file `prefix_of` allCommitsData (fetchAll tokens file input_lines).
Proof.
  intros Hnodup. unfold Ingestor.fetchAll.
  match goal with |- context [loadProgress file ?p] =>
    destruct (loadProgress_durable file p) as (_ & Hall & Hproc); [by repeat constructor|]
  end.
  split.
  - apply loop_invariant; [intros; by apply step_keyed|].
    split; cbn [allCommitsData processedRepos]; rewrite Hall; [done|].
    intros key Hkey. rewrite Hproc. by apply elem_of_list_to_set.
  - apply (loop_invariant listCommits tokens
             (fun st => saved file `prefix_of` allCommitsData st)).
    + intros i r st Hpre. etrans; [exact Hpre|apply step_extends].
    + cbn [allCommitsData]. by rewrite Hall.
Qed.

(** The file a run leaves. *)
Lemma main_file file GITHUB_TOKENS_STRING input_lines :
  NoDup (map repository (saved file)) ->
  let file' := disk_after file (main GITHUB_TOKENS_STRING file input_lines) in
  NoDup (map repository (saved file')) /\ saved file `prefix_of` saved file'.
Proof.
  intros Hnodup. unfold Ingestor.main.
  destruct (Js.falsy_string GITHUB_TOKENS_STRING); [done|].
  destruct (length (parseTokens _) =? 0)%nat; [done|].
  destruct (fetchAll_keyed file
              (parseTokens (default EmptyString GITHUB_TOKENS_STRING)) input_lines Hnodup)
    as [[Hkeys _] Hpre].
  cbn zeta. rewrite disk_after_app.
  change (disk_after ?f [ConsoleLog ?m1; WriteFileSync OUTPUT_FILE_PATH (JCollection ?d);
                         ConsoleLog ?m2]) with (Some (JsonText d)).
  done.
Qed.

Lemma step_asked_once tokens i r st : asked_once st -> asked_once (step tokens i r st).
Proof.
  intros (Hnodup & Hasked & Hmarked & Hfailed).
  destruct (step_cases listCommits tokens i r st)
    as [?|octokit found Hnew ?|octokit error Hnew ?]; [done|..];
    unfold asked_once; cbn [trace allCommitsData processedRepos];
    rewrite requested_app, failed_app;
    change (requested [fetch_log r; ListCommits octokit (request_for r) _; _])
      with [fullName r].
  - change (failed [fetch_log r; ListCommits octokit (request_for r) _; _]) with (@nil string).
    rewrite app_nil_r, map_app. repeat split.
    + apply NoDup_app. split; [done|]. split; [|apply NoDup_singleton].
      intros key Hkey ->%list_elem_of_singleton. by apply Hnew, Hasked.
    + intros key Hkey. apply elem_of_app in Hkey as [Hkey|Hkey].
      * apply Hasked in Hkey. set_solver.
      * apply list_elem_of_singleton in Hkey. subst key. set_solver.
    + intros key Hkey. apply elem_of_app in Hkey as [Hkey|Hkey].
      * apply Hmarked in Hkey. set_solver.
      * apply list_elem_of_singleton in Hkey. subst key. set_solver.
    + intros key Hkey Hin. apply elem_of_app in Hin as [Hin|Hin].
      * by apply (Hfailed key).
      * apply list_elem_of_singleton in Hin. cbn in Hin. subst key.
        by apply Hnew, Hasked, failed_requested.
  - change (failed [fetch_log r; ListCommits octokit (request_for r) _; _])
      with [fullName r].
    repeat split.
    + apply NoDup_app. split; [done|]. split; [|apply NoDup_singleton].
      intros key Hkey ->%list_elem_of_singleton. by apply Hnew, Hasked.
    + intros key Hkey. apply elem_of_app in Hkey as [Hkey|Hkey].
      * apply Hasked in Hkey. set_solver.
      * apply list_elem_of_singleton in Hkey. subst key. set_solver.
    + intros key Hkey. apply Hmarked in Hkey. set_solver.
    + intros key Hkey Hin. apply elem_of_app in Hkey as [Hkey|Hkey].
      * by apply (Hfailed key).
      * apply list_elem_of_singleton in Hkey. subst key. by apply Hnew, Hmarked.
Qed.

Lemma step_marks tokens i r st : fullName r ∈ processedRepos (step tokens i r st).
Proof.
  destruct (step_cases listCommits tokens i r st); cbn [processedRepos]; set_solver.
Qed.

Lemma step_keeps_marks tokens i r st key :
  key ∈ processedRepos st -> key ∈ processedRepos (step tokens i r st).
Proof.
  destruct (step_cases listCommits tokens i r st); cbn [processedRepos]; set_solver.
Qed.

(** The loop goes through the whole list: every repository of the list is
    marked processed when it ends. *)
Lemma loop_marks_all tokens repoDataList i st r :
  r ∈ repoDataList -> fullName r ∈ processedRepos (loop tokens i repoDataList st).
Proof.
  revert i st. induction repoDataList as [|r0 rest IH]; intros i st Hin.
  - by apply elem_of_nil in Hin.
  - cbn [Ingestor.loop]. apply elem_of_cons in Hin as [->|Hin]; [|by apply IH].
    apply (loop_invariant listCommits tokens (fun st => fullName r0 ∈ processedRepos st)).
    + intros. by apply step_keeps_marks.
    + apply step_marks.
Qed.

(** A failed fetch leaves the loop at the next repository, with the
    repository marked and the collection as it was. *)
Lemma loop_after_failure tokens i r rest st error :
  fullName r ∉ processedRepos st ->
  listCommits (nth (i mod length tokens) tokens EmptyString) (request_for r)
    = Failure error ->
  loop tokens i (r :: rest) st =
  loop tokens (S i) rest
    {| allCommitsData := allCommitsData st;
       processedRepos := {[fullName r]} ∪ processedRepos st;
       newReposProcessed := newReposProcessed st;
       trace := trace st ++
         [fetch_log r;
          ListCommits (nth (i mod length tokens) tokens EmptyString) (request_for r)
            (Failure error);
          fetch_warning r error] |}.
Proof.
  intros Hnew Hfail. cbn [Ingestor.loop]. f_equal.
  unfold Ingestor.step. rewrite decide_False by done.
  unfold fetchCommitsForRepo. fold (request_for r). by rewrite Hfail.
Qed.

Lemma fetchAll_asked_once file tokens input_lines :
  asked_once (fetchAll tokens file input_lines).
Proof.
  unfold Ingestor.fetchAll. apply loop_invariant; [intros; by apply step_asked_once|].
  match goal with |- context [loadProgress file ?p] =>
    destruct (loadProgress_durable file p) as (Hq & Hall & Hproc); [by repeat constructor|];
    set (loaded := loadProgress file p) in *
  end.
  assert (forall ext, Forall quiet ext ->
                      (forall e, e ∈ ext -> match e with ListCommits _ _ _ => False | _ => True end) ->
                      requested (trace loaded ++ ext) = [] /\ failed (trace loaded ++ ext) = [])
    as Hnone.
  { intros ext _ Hext. unfold loaded, loadProgress.
    destruct file as [[data|]|]; cbn [JSON_parse trace];
      rewrite requested_app, failed_app; cbn [requested failed omap list_omap app];
      (assert (requested ext = [] /\ failed ext = []) as [-> ->]; [|done]);
      (induction ext as [|e ext IH]; [done|]);
      (destruct IH as [IH1 IH2]; [intros e' He'; apply Hext; by right|]);
      pose proof (Hext e (list_elem_of_here _ _)) as He;
      unfold requested, failed in *; destruct e; try done;
      cbn [omap list_omap]; by rewrite ?IH1, ?IH2. }
  match goal with |- asked_once {| trace := _ ++ ?ext |} =>
    destruct (Hnone ext) as [Hreq Hfl];
      [by repeat constructor
      |intros e He; repeat (apply elem_of_cons in He as [->|He]; [done|]);
       by apply elem_of_nil in He|]
  end.
  unfold asked_once. cbn [trace allCommitsData processedRepos].
  rewrite Hreq, Hfl, Hall, Hproc. repeat split.
  - apply NoDup_nil_2.
  - intros key Hkey. by apply elem_of_nil in Hkey.
  - intros key Hkey. by apply elem_of_list_to_set.
  - intros key Hkey. by apply elem_of_nil in Hkey.
Qed.

Lemma step_marked_for file tokens i r st :
  marked_for file st -> marked_for file (step tokens i r st).
Proof.
  intros Hmarked.
  destruct (step_cases listCommits tokens i r st) as [?|octokit found ? ?|octokit error ? ?];
    [done|..]; intros key; cbn [processedRepos trace]; rewrite requested_app;
    change (requested [fetch_log r; ListCommits octokit (request_for r) _; _])
      with [fullName r];
    intros [->%elem_of_singleton|Hkey]%elem_of_union;
    try (right; apply elem_of_app; right; by apply list_elem_of_singleton);
    (destruct (Hmarked key Hkey); [by left|right; apply elem_of_app; by left]).
Qed.

Lemma fetchAll_marked_for file tokens input_lines :
  marked_for file (fetchAll tokens file input_lines).
Proof.
  unfold Ingestor.fetchAll. apply loop_invariant; [intros; by apply step_marked_for|].
  match goal with |- context [loadProgress file ?p] =>
    destruct (loadProgress_durable file p) as (_ & _ & Hproc); [by repeat constructor|]
  end.
  intros key. cbn [processedRepos]. rewrite Hproc. intros Hkey.
  left. by apply elem_of_list_to_set in Hkey.
Qed.

End RunFacts.

(** Every file the ingestor leaves has distinct repository keys. *)
Lemma produced_distinct_keys file :
  produced file -> NoDup (map repository (saved file)).
Proof.
  induction 1 as [| |file new_URL JSON_parse_line listCommits tokens input_lines _ IH].
  - apply NoDup_nil_2.
  - apply NoDup_nil_2.
  - by apply main_file.
Qed.

(** *** The claims about the ingestor *)

(** C3.  Two runs on the same input, starting from an output file whose
    repository keys are distinct: the file after the second run has distinct
    keys, and the entries present before each run are still there after it,
    unchanged and in place.  The service and the tokens may differ between
    the two runs. *)
Theorem rerun_keeps_entries_and_distinct_keys
    (new_URL : string -> option URL)
    (JSON_parse_line : string -> option ExportLine)
    (listCommits1 listCommits2 : string -> ListCommitsRequest -> ApiResponse)
    (tokens1 tokens2 : option string) (output_file : option FileContent)
    (input_lines : list string) :
  NoDup (map repository (saved output_file)) ->
  let file1 :=
    disk_after output_file
      (Ingestor.main new_URL JSON_parse_line listCommits1 tokens1 output_file input_lines) in
  let file2 :=
    disk_after file1
      (Ingestor.main new_URL JSON_parse_line listCommits2 tokens2 file1 input_lines) in
  NoDup (map repository (saved file2))
  /\ saved file1 `prefix_of` saved file2
  /\ saved output_file `prefix_of` saved file1.
Proof.
  intros Hnodup file1 file2.
  destruct (main_file new_URL JSON_parse_line listCommits1
              output_file tokens1 input_lines Hnodup) as [Hnodup1 Hpre1].
  destruct (main_file new_URL JSON_parse_line listCommits2
              file1 tokens2 input_lines Hnodup1) as [Hnodup2 Hpre2].
  done.
Qed.

(** Two runs on the sample export, from a file that holds one entry. *)
Lemma rerun_keeps_entries_and_distinct_keys_witness :
  let prior :=
    Some (JsonText [{| repository := "octo/zeta"; ecosystem := "Bitcoin";
                       commits := [Sample.commit_at None] |}]) in
  let file1 :=
    disk_after prior
      (Ingestor.main Sample.new_URL Sample.JSON_parse_line Sample.listCommits_beta
         (Some "tokA,tokB") prior Sample.export_lines) in
  let file2 :=
    disk_after file1
      (Ingestor.main Sample.new_URL Sample.JSON_parse_line Sample.listCommits_all
         (Some "tokA") file1 Sample.export_lines) in
  NoDup (map repository (saved file2))
  /\ saved file1 `prefix_of` saved file2
  /\ saved prior `prefix_of` saved file1.
Proof.
  apply (rerun_keeps_entries_and_distinct_keys
           Sample.new_URL Sample.JSON_parse_line
           Sample.listCommits_beta Sample.listCommits_all
           (Some "tokA,tokB") (Some "tokA")).
  cbn. apply NoDup_singleton.
Defined.

Example rerun_sample_keys :
  let prior :=
    Some (JsonText [{| repository := "octo/zeta"; ecosystem := "Bitcoin";
                       commits := [Sample.commit_at None] |}]) in
  let file1 :=
    disk_after prior
      (Ingestor.main Sample.new_URL Sample.JSON_parse_line Sample.listCommits_beta
         (Some "tokA,tokB") prior Sample.export_lines) in
  let file2 :=
    disk_after file1
      (Ingestor.main Sample.new_URL Sample.JSON_parse_line Sample.listCommits_all
         (Some "tokA") file1 Sample.export_lines) in
  map repository (saved file1) = ["octo/zeta"; "octo/beta"]
  /\ map repository (saved file2) = ["octo/zeta"; "octo/beta"; "octo/alpha"].
Proof. vm_compute. split; reflexivity. Qed.

(** C4, as amended.  In every run, the effect that follows a successful
    fetch is the write of the whole collection, made of the entries the file
    held and the new one; the entries the file holds after any number of
    effects are still there, in place, after any larger number, so a run
    stopped between two effects leaves every entry that was saved before;
    and the entry of a successful fetch is in the file from the second
    effect after the fetch on, so a run stopped between two effects lacks at
    most the entry of the fetch that was the last effect.  Each effect, a
    write included, is one step. *)
Theorem successful_fetch_saved_at_once
    (new_URL : string -> option URL)
    (JSON_parse_line : string -> option ExportLine)
    (listCommits : string -> ListCommitsRequest -> ApiResponse)
    (GITHUB_TOKENS_STRING : option string) (output_file : option FileContent)
    (input_lines : list string) :
  let performed :=
    Ingestor.main new_URL JSON_parse_line listCommits
      GITHUB_TOKENS_STRING output_file input_lines in
  (forall k octokit request found,
      performed !! k = Some (ListCommits octokit request (Data found)) ->
      exists eco,
        performed !! S k =
          Some (WriteFileSync OUTPUT_FILE_PATH
                  (JCollection (saved (disk_after output_file (take k performed))
                                ++ [entry_for request eco found]))))
  /\ (forall k1 k2, k1 <= k2 ->
        saved (disk_after output_file (take k1 performed))
          `prefix_of` saved (disk_after output_file (take k2 performed)))
  /\ (forall k j octokit request found,
        performed !! k = Some (ListCommits octokit request (Data found)) ->
        k + 2 <= j ->
        exists eco,
          entry_for request eco found ∈ saved (disk_after output_file (take j performed))).
Proof.
  intros performed.
  destruct (main_durable new_URL JSON_parse_line listCommits
              output_file GITHUB_TOKENS_STRING input_lines) as [Hext Honce].
  fold performed in Hext, Honce.
  assert (forall k1 k2, k1 <= k2 ->
            saved (disk_after output_file (take k1 performed))
              `prefix_of` saved (disk_after output_file (take k2 performed))) as Hgrow.
  { intros k1 k2 Hle. by apply writes_extend_take. }
  split; [exact Honce|]. split; [exact Hgrow|].
  intros k j octokit request found Hk Hj.
  destruct (Honce _ _ _ _ Hk) as [eco Hwrite]. exists eco.
  destruct (Hgrow (S (S k)) j ltac:(lia)) as [rest ->].
  rewrite (take_S_r _ _ _ Hwrite), disk_after_app, disk_after_write. cbn [saved].
  rewrite !elem_of_app, list_elem_of_singleton. auto.
Qed.

(** The sample run: the fetch of [octo/beta] is the effect of index 8. *)
Lemma successful_fetch_saved_at_once_witness :
  let performed :=
    Ingestor.main Sample.new_URL Sample.JSON_parse_line Sample.listCommits_beta
      (Some "tokA,tokB") None Sample.export_lines in
  (exists eco,
      performed !! 9 =
        Some (WriteFileSync OUTPUT_FILE_PATH
                (JCollection
                   (saved (disk_after None (take 8 performed))
                    ++ [entry_for (request_for
                                     {| cleanedRepo := {| owner := "octo"; repo := "beta" |};
                                        cleanedEcosystem := "Bitcoin" |})
                                  eco
                                  [Sample.commit_of "c1" (Some "2024-01-01T10:00:00Z");
                                   Sample.commit_of "c2" None]]))))
  /\ saved (disk_after None (take 10 performed))
       `prefix_of` saved (disk_after None (take 12 performed)).
Proof.
  destruct (successful_fetch_saved_at_once
              Sample.new_URL Sample.JSON_parse_line Sample.listCommits_beta
              (Some "tokA,tokB") None Sample.export_lines) as (Honce & Hgrow & _).
  split.
  - apply (Honce 8 "tokB"). vm_compute. reflexivity.
  - apply Hgrow. lia.
Defined.

(** C4, as stated, fails: the file is rewritten in place, so a run stopped
    inside a write leaves text that cannot be parsed.  The sample run from a
    file that holds [octo/zeta], stopped inside the write that follows the
    fetch of [octo/beta]: the file holds no entry any more, and the next run,
    which starts from scratch, leaves a file without [octo/zeta]. *)
Lemma stop_inside_write_loses_saved_entries :
  let prior :=
    Some (JsonText [{| repository := "octo/zeta"; ecosystem := "Bitcoin";
                       commits := [Sample.commit_at None] |}]) in
  let run file :=
    Ingestor.main Sample.new_URL Sample.JSON_parse_line Sample.listCommits_beta
      (Some "tokA,tokB") file Sample.export_lines in
  let stopped := disk_at prior (run prior) (InsideEffect 11) in
  map repository (saved prior) = ["octo/zeta"]
  /\ requested (take 11 (run prior)) = ["octo/alpha"; "octo/beta"]
  /\ (exists data,
        run prior !! 11 = Some (WriteFileSync OUTPUT_FILE_PATH (JCollection data))
        /\ map repository data = ["octo/zeta"; "octo/beta"])
  /\ map repository (saved (disk_at prior (run prior) (AfterEffects 11))) = ["octo/zeta"]
  /\ stopped = Some Malformed
  /\ saved stopped = []
  /\ map repository (saved (disk_after stopped (run stopped))) = ["octo/beta"].
Proof.
  cbv zeta. split; [reflexivity|]. split; [vm_compute; reflexivity|]. split.
  - eexists. split; [vm_compute; reflexivity|]. vm_compute. reflexivity.
  - repeat split; vm_compute; reflexivity.
Qed.

(** * Further properties of the code *)

(** ** Separators of one code unit, and trimming *)

Lemma split_char_cons c a r :
  Js.split (sep1 c) (String a r) =
    if Ascii.eqb c a then EmptyString :: Js.split (sep1 c) r
    else match Js.split (sep1 c) r with
         | seg :: segs => String a seg :: segs
         | [] => [String a EmptyString]
         end.
Proof.
  unfold Js.split, sep1. cbn [Js.split_from String.length Nat.sub].
  cbn [String.prefix]. destruct (ascii_dec c a) as [->|Hne].
  - rewrite Ascii.eqb_refl. by destruct r.
  - apply Ascii.eqb_neq in Hne. by rewrite Hne.
Qed.

Lemma split_nonempty sep s : Js.split sep s <> [].
Proof. apply split_from_nonempty. Qed.

(** The segments hold the code units of the text other than the separator. *)
Lemma split_char_every p c s :
  Forall (fun seg => every_char p seg = true) (Js.split (sep1 c) s)
  <-> every_char (fun x => p x || Ascii.eqb x c) s = true.
Proof.
  induction s as [|a r IH]; [split; [done|by repeat constructor]|].
  rewrite split_char_cons. cbn [every_char]. rewrite andb_true_iff, <- IH.
  rewrite (Ascii.eqb_sym a c).
  destruct (Ascii.eqb c a) eqn:Hca.
  - rewrite orb_true_r, Forall_cons. cbn [every_char]. tauto.
  - rewrite orb_false_r. pose proof (split_nonempty (sep1 c) r) as Hne.
    destruct (Js.split (sep1 c) r) as [|seg segs]; [done|].
    rewrite !Forall_cons. cbn [every_char]. rewrite andb_true_iff. tauto.
Qed.

(** No segment holds the separator. *)
Lemma split_char_free c s :
  Forall (fun seg => has_char c seg = false) (Js.split (sep1 c) s).
Proof.
  induction s as [|a r IH]; [by repeat constructor|].
  rewrite split_char_cons. destruct (Ascii.eqb c a) eqn:Hca.
  - by constructor.
  - pose proof (split_nonempty (sep1 c) r) as Hne.
    destruct (Js.split (sep1 c) r) as [|seg segs]; [done|].
    apply Forall_cons in IH as [Hseg Hsegs]. constructor; [|done].
    cbn [has_char]. by rewrite (Ascii.eqb_sym a c), Hca, Hseg.
Qed.

(** The first segment is the text up to the first separator. *)
Lemma split_char_hd c s :
  exists rest,
    s = hd EmptyString (Js.split (sep1 c) s) +:+ rest
    /\ (rest = EmptyString \/ exists r, rest = String c r).
Proof.
  induction s as [|a r (rest & Hs & Hrest)].
  - exists EmptyString. split; [done|by left].
  - rewrite split_char_cons. destruct (Ascii.eqb c a) eqn:Hca.
    + apply Ascii.eqb_eq in Hca. subst a. exists (String c r). split; [done|].
      right. by exists r.
    + pose proof (split_nonempty (sep1 c) r) as Hne.
      destruct (Js.split (sep1 c) r) as [|seg segs]; [done|].
      exists rest. split; [|done]. cbn [hd] in *.
      change (String a seg +:+ rest) with (String a (seg +:+ rest)). by rewrite <- Hs.
Qed.

Lemma trimStart_empty s :
  Js.trimStart s = EmptyString <-> every_char Js.is_white_space s = true.
Proof.
  induction s as [|a r IH]; [done|]. cbn [Js.trimStart every_char].
  destruct (Js.is_white_space a); [by rewrite IH|]. split; discriminate.
Qed.

Lemma trimEnd_empty s :
  Js.trimEnd s = EmptyString <-> every_char Js.is_white_space s = true.
Proof.
  induction s as [|a r IH]; [done|]. cbn [Js.trimEnd every_char].
  destruct (Js.trimEnd r) as [|b t].
  - destruct IH as [-> _]; [|done]. rewrite andb_true_r.
    destruct (Js.is_white_space a); split; done.
  - split; [discriminate|]. intros [_ Hr]%andb_true_iff.
    by apply IH in Hr.
Qed.

Lemma trimStart_suffix s :
  every_char Js.is_white_space (Js.trimStart s) = true ->
  every_char Js.is_white_space s = true.
Proof.
  induction s as [|a r IH]; [done|]. cbn [Js.trimStart every_char].
  destruct (Js.is_white_space a) eqn:Ha; [done|].
  cbn [every_char]. by rewrite Ha.
Qed.

(** Trimming leaves nothing exactly when the text is white space. *)
Lemma trim_empty s :
  Js.trim s = EmptyString <-> every_char Js.is_white_space s = true.
Proof.
  unfold Js.trim. rewrite trimEnd_empty. split; [apply trimStart_suffix|].
  intros H. by apply trimStart_empty in H as ->.
Qed.

Lemma trimStart_head a r :
  Js.is_white_space a = false -> Js.trimStart (String a r) = String a r.
Proof. intros Ha. cbn. by rewrite Ha. Qed.

Lemma trimEnd_head a r :
  Js.is_white_space a = false -> exists t, Js.trimEnd (String a r) = String a t.
Proof.
  intros Ha. cbn [Js.trimEnd]. destruct (Js.trimEnd r); rewrite ?Ha; eauto.
Qed.

Lemma trimEnd_idem s : Js.trimEnd (Js.trimEnd s) = Js.trimEnd s.
Proof.
  induction s as [|a r IH]; [done|]. cbn [Js.trimEnd].
  destruct (Js.trimEnd r) as [|b t] eqn:Hr.
  - destruct (Js.is_white_space a) eqn:Ha; [done|]. cbn. by rewrite Ha.
  - cbn [Js.trimEnd]. cbn [Js.trimEnd] in IH.
    destruct (Js.trimEnd t) as [|b' t'] eqn:Ht.
    + destruct (Js.is_white_space b); [discriminate IH|]. by injection IH as ->.
    + by rewrite IH.
Qed.

(** Trimming twice is trimming once. *)
Lemma trim_idem s : Js.trim (Js.trim s) = Js.trim s.
Proof.
  unfold Js.trim. destruct (Js.trimStart s) as [|a r] eqn:Hs; [done|].
  assert (Js.is_white_space a = false) as Ha.
  { clear -Hs. induction s as [|b t IH]; [done|]. cbn in Hs.
    destruct (Js.is_white_space b) eqn:Hb; [by apply IH|]. by injection Hs as <- <-. }
  destruct (trimEnd_head a r Ha) as [t Ht]. rewrite Ht.
  rewrite trimStart_head by done. by rewrite <- Ht, trimEnd_idem.
Qed.

(** ** Ecosystem labels *)

Lemma split_without_separator sep s :
  (forall i, ~ occurs_at sep s i) -> Js.split sep s = [s].
Proof.
  unfold Js.split. induction s as [|a r IH]; intros Hnone; [done|].
  cbn [Js.split_from].
  destruct (String.prefix sep (String a r)) eqn:Hp.
  - exfalso. apply (Hnone 0). by apply occurs_at_0.
  - rewrite IH; [done|]. intros i Hi. apply (Hnone (S i)). by apply occurs_at_S.
Qed.

(** X1.  A label that is not empty and does not hold [" - "] is cleaned to
    the label, trimmed. *)
Theorem cleanEcosystemName_without_separator (name : string) :
  name <> EmptyString ->
  (forall i, ~ occurs_at " - " name i) ->
  cleanEcosystemName (Some name) = Js.trim name.
Proof.
  intros Hname Hnone. unfold cleanEcosystemName.
  destruct name as [|a r]; [done|]. by rewrite split_without_separator.
Qed.

(** The property on a label with blanks around it and a hyphen inside. *)
Lemma cleanEcosystemName_without_separator_witness :
  cleanEcosystemName (Some " Polygon-zkEVM ") = "Polygon-zkEVM".
Proof.
  transitivity (Js.trim " Polygon-zkEVM "); [|reflexivity].
  apply cleanEcosystemName_without_separator; [discriminate|].
  intros i. unfold occurs_at.
  do 16 (destruct i as [|i]; [vm_compute; discriminate|]).
  vm_compute. destruct i; discriminate.
Defined.

(** X2.  A cleaned label is trimmed: cleaning never yields a label that
    starts or ends with white space, whatever the name. *)
Theorem cleanEcosystemName_trimmed (name : option string) :
  Js.trim (cleanEcosystemName name) = cleanEcosystemName name.
Proof.
  destruct name as [[|a r]|]; [reflexivity| |reflexivity].
  unfold cleanEcosystemName. apply trim_idem.
Qed.

(** X3.  A name made of white space only is not taken for an absent one: it
    is cleaned to the empty label, not to ["Unknown"]. *)
Theorem cleanEcosystemName_blank (name : string) :
  name <> EmptyString ->
  every_char Js.is_white_space name = true ->
  cleanEcosystemName (Some name) = EmptyString.
Proof.
  intros Hname Hblank.
  assert (forall s, every_char Js.is_white_space s = true ->
                    String.prefix " - " s = false) as Hprefix.
  { intros [|a [|b s]] Hs; cbn [String.prefix]; [done| |].
    - by destruct (ascii_dec " " a).
    - destruct (ascii_dec " " a); [|done].
      destruct (ascii_dec "-" b) as [<-|]; [|done].
      cbn in Hs. by rewrite andb_false_r in Hs. }
  assert (forall s, every_char Js.is_white_space s = true -> Js.split " - " s = [s])
    as Hsplit.
  { unfold Js.split. induction s as [|a r IH]; [done|]. intros Hs.
    cbn [Js.split_from]. rewrite Hprefix by done.
    cbn in Hs. apply andb_true_iff in Hs as [_ Hr]. by rewrite IH. }
  unfold cleanEcosystemName. destruct name as [|a r]; [done|].
  rewrite Hsplit by done. by apply trim_empty.
Qed.

(** The property on a name of two blanks. *)
Lemma cleanEcosystemName_blank_witness : cleanEcosystemName (Some "  ") = EmptyString.
Proof. apply cleanEcosystemName_blank; [discriminate|reflexivity]. Defined.

(** ** Repository references *)

Lemma append_slash_inj o1 o2 p1 p2 :
  has_char "/" o1 = false -> has_char "/" o2 = false ->
  o1 +:+ "/" +:+ p1 = o2 +:+ "/" +:+ p2 -> o1 = o2 /\ p1 = p2.
Proof.
  revert o2. induction o1 as [|a o1 IH]; intros [|b o2] H1 H2 Heq;
    repeat (rewrite append_nil in Heq || rewrite append_cons in Heq).
  - by injection Heq as ->.
  - injection Heq as <- _. cbn in H2. discriminate H2.
  - injection Heq as -> _. cbn in H1. discriminate H1.
  - injection Heq as -> Heq. cbn [has_char] in H1, H2.
    apply orb_false_iff in H1 as [_ H1]. apply orb_false_iff in H2 as [_ H2].
    destruct (IH o2 H1 H2 Heq) as [-> ->]. done.
Qed.

Lemma cleanRepoUrl_slash_free new_URL url r :
  cleanRepoUrl new_URL url = Some r ->
  has_char "/" (owner r) = false /\ has_char "/" (repo r) = false.
Proof.
  unfold cleanRepoUrl. destruct (new_URL url) as [u|]; [|done].
  destruct (negb _); [done|].
  pose proof (split_char_free "/"
                (Js.replace_dot_git_end (Js.substring_1 (pathname u)))) as Hfree.
  change (sep1 "/") with "/" in Hfree.
  destruct (Js.split "/" _) as [|p0 [|p1 rest]]; [done..|].
  cbn. intros [= <-]. cbn.
  apply Forall_cons in Hfree as [H0 Hfree]. apply Forall_cons in Hfree as [H1 _].
  done.
Qed.

(** X4.  The owner and the repository name that [cleanRepoUrl] returns hold
    no slash, so the key [owner/repo] that the ingestor builds from them
    identifies both: two results with the same key are the same. *)
Theorem cleanRepoUrl_key_identifies (new_URL : string -> option URL) :
  (forall url r,
      cleanRepoUrl new_URL url = Some r ->
      has_char "/" (owner r) = false /\ has_char "/" (repo r) = false)
  /\ (forall url1 url2 r1 r2,
        cleanRepoUrl new_URL url1 = Some r1 ->
        cleanRepoUrl new_URL url2 = Some r2 ->
        owner r1 +:+ "/" +:+ repo r1 = owner r2 +:+ "/" +:+ repo r2 ->
        r1 = r2).
Proof.
  split; [apply cleanRepoUrl_slash_free|].
  intros url1 url2 [o1 p1] [o2 p2] H1 H2 Hkey.
  apply cleanRepoUrl_slash_free in H1 as [H1 _], H2 as [H2 _].
  cbn [owner repo] in *.
  destruct (append_slash_inj _ _ _ _ H1 H2 Hkey) as [-> ->]. done.
Qed.

(** The property on two URLs of the same repository. *)
Lemma cleanRepoUrl_key_identifies_witness :
  (has_char "/" "octo" = false /\ has_char "/" "beta" = false)
  /\ cleanRepoUrl Sample.new_URL "https://github.com/octo/beta.git"
     = cleanRepoUrl Sample.new_URL "https://github.com/octo/beta/issues".
Proof.
  destruct (cleanRepoUrl_key_identifies Sample.new_URL) as [Hfree Hkey].
  split.
  - apply (Hfree "https://github.com/octo/beta.git" {| owner := "octo"; repo := "beta" |}).
    vm_compute. reflexivity.
  - destruct (cleanRepoUrl Sample.new_URL "https://github.com/octo/beta.git")
      as [r1|] eqn:H1; [|vm_compute in H1; discriminate H1].
    destruct (cleanRepoUrl Sample.new_URL "https://github.com/octo/beta/issues")
      as [r2|] eqn:H2; [|vm_compute in H2; discriminate H2].
    f_equal. apply (Hkey _ _ _ _ H1 H2).
    vm_compute in H1, H2. injection H1 as <-. injection H2 as <-. reflexivity.
Defined.

(** The rule on a URL that ends in [.git]. *)
Lemma cleanRepoUrl_follows_rule_witness :
  cleanRepoUrl Sample.new_URL "https://github.com/octo/beta.git"
  = cleanRepoUrl_rule Sample.new_URL "https://github.com/octo/beta.git".
Proof.
  apply (cleanRepoUrl_follows_rule Sample.new_URL "https://github.com/octo/beta.git"
           {| hostname := "github.com"; pathname := "/octo/beta.git" |});
    vm_compute; reflexivity.
Defined.

(** ** Commit records *)

(** X6.  The record made of a commit of the service: its author is never
    empty, and its message is the first line of the commit message, that is
    the text up to the first line feed, with no line feed in it. *)
Theorem toCommitRecord_first_line (commit : ApiCommit) :
  author (toCommitRecord commit) <> EmptyString
  /\ has_char (ascii_of_nat 10) (message (toCommitRecord commit)) = false
  /\ exists rest,
       api_message commit = message (toCommitRecord commit) +:+ rest
       /\ (rest = EmptyString \/ exists r, rest = LF +:+ r).
Proof.
  split; [|split].
  - unfold toCommitRecord. cbn [author].
    destruct (api_author commit ≫= name) as [[|a r]|]; done.
  - unfold toCommitRecord. cbn [message].
    pose proof (split_char_free (ascii_of_nat 10) (api_message commit)) as Hfree.
    pose proof (split_nonempty LF (api_message commit)) as Hne.
    change (sep1 (ascii_of_nat 10)) with LF in Hfree.
    destruct (Js.split LF (api_message commit)) as [|seg segs]; [done|].
    by apply Forall_cons in Hfree as [? _].
  - apply (split_char_hd (ascii_of_nat 10) (api_message commit)).
Qed.

(** ** Reading the export *)

Section InputFacts.

Variable new_URL : string -> option URL.
Variable JSON_parse_line : string -> option ExportLine.

Local Abbreviation onLine := (Ingestor.onLine new_URL JSON_parse_line).
Local Abbreviation parseInputFile := (Ingestor.parseInputFile new_URL JSON_parse_line).

Lemma onLine_appends results line :
  onLine results line = results ++ onLine [] line.
Proof.
  unfold Ingestor.onLine. destruct (String.eqb (Js.trim line) EmptyString).
  - by rewrite app_nil_r.
  - destruct (JSON_parse_line line) as [data|]; [|by rewrite app_nil_r].
    destruct (cleanRepoUrl new_URL _); [done|by rewrite app_nil_r].
Qed.

Lemma fold_onLine lines results :
  fold_left onLine lines results = results ++ parseInputFile lines.
Proof.
  unfold Ingestor.parseInputFile.
  revert results. induction lines as [|line lines IH]; intros results.
  - by rewrite app_nil_r.
  - cbn [fold_left]. rewrite IH, (IH (onLine [] line)), (onLine_appends results).
    by rewrite app_assoc.
Qed.

Lemma parseInputFile_cons line lines :
  parseInputFile (line :: lines) = onLine [] line ++ parseInputFile lines.
Proof. unfold Ingestor.parseInputFile at 1. cbn [fold_left]. apply fold_onLine. Qed.

Lemma parseInputFile_app lines1 lines2 :
  parseInputFile (lines1 ++ lines2) = parseInputFile lines1 ++ parseInputFile lines2.
Proof.
  unfold Ingestor.parseInputFile at 1. rewrite fold_left_app.
  fold (parseInputFile lines1). apply fold_onLine.
Qed.

Lemma onLine_at_most_one line : length (onLine [] line) <= 1.
Proof.
  unfold Ingestor.onLine. destruct (String.eqb (Js.trim line) EmptyString); [simpl; lia|].
  destruct (JSON_parse_line line) as [data|]; [|simpl; lia].
  destruct (cleanRepoUrl new_URL _); simpl; lia.
Qed.

Lemma parseInputFile_elem r lines :
  r ∈ parseInputFile lines ->
  exists line data parsedUrl,
    line ∈ lines
    /\ every_char Js.is_white_space line = false
    /\ JSON_parse_line line = Some data
    /\ new_URL (default "undefined" (repo_url data)) = Some parsedUrl
    /\ hostname parsedUrl = "github.com"
    /\ cleanRepoUrl new_URL (default "undefined" (repo_url data)) = Some (cleanedRepo r)
    /\ cleanedEcosystem r = cleanEcosystemName (eco_name data).
Proof.
  induction lines as [|line lines IH]; [by intros ?%elem_of_nil|].
  rewrite parseInputFile_cons. intros [Hr|Hr]%elem_of_app.
  - unfold Ingestor.onLine in Hr.
    destruct (String.eqb (Js.trim line) EmptyString) eqn:Hblank;
      [by apply elem_of_nil in Hr|].
    destruct (JSON_parse_line line) as [data|] eqn:Hdata; [|by apply elem_of_nil in Hr].
    destruct (cleanRepoUrl new_URL _) as [cleaned|] eqn:Hclean;
      [|by apply elem_of_nil in Hr].
    apply list_elem_of_singleton in Hr. subst r.
    destruct (cleanRepoUrl_some _ _ _ Hclean) as (parsedUrl & Hurl & Hhost).
    exists line, data, parsedUrl. repeat split; try done.
    + apply elem_of_cons. by left.
    + apply not_true_iff_false. intros Hws. apply trim_empty in Hws.
      by rewrite Hws in Hblank.
  - destruct (IH Hr) as (line' & data & parsedUrl & Hin & H).
    exists line', data, parsedUrl. split; [|done]. apply elem_of_cons. by right.
Qed.

End InputFacts.

(** X7.  Each line of the export is handled on its own: the references
    read from a file are those of its lines, in the order of the lines; a
    line gives at most one reference; and a line that is blank, or that
    [JSON.parse] refuses, gives none and changes nothing for the others. *)
Theorem parseInputFile_line_by_line
    (new_URL : string -> option URL) (JSON_parse_line : string -> option ExportLine) :
  (forall lines1 lines2,
      parseInputFile new_URL JSON_parse_line (lines1 ++ lines2)
      = parseInputFile new_URL JSON_parse_line lines1
        ++ parseInputFile new_URL JSON_parse_line lines2)
  /\ (forall lines,
        length (parseInputFile new_URL JSON_parse_line lines) <= length lines)
  /\ (forall lines1 line lines2,
        every_char Js.is_white_space line = true \/ JSON_parse_line line = None ->
        parseInputFile new_URL JSON_parse_line (lines1 ++ line :: lines2)
        = parseInputFile new_URL JSON_parse_line (lines1 ++ lines2)).
Proof.
  split; [apply parseInputFile_app|]. split.
  - induction lines as [|line lines IH]; [done|].
    rewrite parseInputFile_cons, length_app. cbn [length].
    pose proof (onLine_at_most_one new_URL JSON_parse_line line). lia.
  - intros lines1 line lines2 Hdrop.
    rewrite !parseInputFile_app, parseInputFile_cons.
    assert (Ingestor.onLine new_URL JSON_parse_line [] line = []) as ->; [|done].
    unfold Ingestor.onLine. destruct Hdrop as [Hblank|Hbad].
    + apply trim_empty in Hblank. by rewrite Hblank.
    + rewrite Hbad. by destruct (String.eqb (Js.trim line) EmptyString).
Qed.

(** The property on the sample export with a blank line in it. *)
Lemma parseInputFile_line_by_line_witness :
  parseInputFile Sample.new_URL Sample.JSON_parse_line
    ([Sample.export_line "https://github.com/octo/alpha" "Ethereum - L2"] ++ "   "
       :: [Sample.export_line "https://github.com/octo/beta.git" "Bitcoin"])
  = parseInputFile Sample.new_URL Sample.JSON_parse_line
      ([Sample.export_line "https://github.com/octo/alpha" "Ethereum - L2"]
       ++ [Sample.export_line "https://github.com/octo/beta.git" "Bitcoin"]).
Proof.
  apply (proj2 (proj2 (parseInputFile_line_by_line Sample.new_URL Sample.JSON_parse_line))).
  left. reflexivity.
Defined.

(** X8.  Every reference read from the export comes from a line that is not
    blank, that [JSON.parse] accepts and whose URL the platform parses with
    the host [github.com]; its owner and repository are what [cleanRepoUrl]
    gives for that URL and its ecosystem is the cleaned label of the line. *)
Theorem parseInputFile_only_github
    (new_URL : string -> option URL) (JSON_parse_line : string -> option ExportLine)
    (lines : list string) (r : RepoData) :
  r ∈ parseInputFile new_URL JSON_parse_line lines ->
  exists line data parsedUrl,
    line ∈ lines
    /\ every_char Js.is_white_space line = false
    /\ JSON_parse_line line = Some data
    /\ new_URL (default "undefined" (repo_url data)) = Some parsedUrl
    /\ hostname parsedUrl = "github.com"
    /\ cleanRepoUrl new_URL (default "undefined" (repo_url data)) = Some (cleanedRepo r)
    /\ cleanedEcosystem r = cleanEcosystemName (eco_name data).
Proof. apply parseInputFile_elem. Qed.

(** The property on the first reference of the sample export. *)
Lemma parseInputFile_only_github_witness :
  exists line data parsedUrl,
    line ∈ Sample.export_lines
    /\ every_char Js.is_white_space line = false
    /\ Sample.JSON_parse_line line = Some data
    /\ Sample.new_URL (default "undefined" (repo_url data)) = Some parsedUrl
    /\ hostname parsedUrl = "github.com"
    /\ cleanRepoUrl Sample.new_URL (default "undefined" (repo_url data))
       = Some {| owner := "octo"; repo := "alpha" |}
    /\ "Ethereum" = cleanEcosystemName (eco_name data).
Proof.
  apply (parseInputFile_only_github Sample.new_URL Sample.JSON_parse_line
           Sample.export_lines
           {| cleanedRepo := {| owner := "octo"; repo := "alpha" |};
              cleanedEcosystem := "Ethereum" |}).
  vm_compute. apply list_elem_of_here.
Defined.

(** ** Tokens *)

Lemma filter_nonempty_nil (l : list string) :
  filter (fun t => t <> EmptyString) l = [] <-> Forall (fun t => t = EmptyString) l.
Proof.
  induction l as [|t l IH]; [split; [by constructor|done]|].
  rewrite filter_cons, Forall_cons. destruct (decide (t <> EmptyString)) as [Ht|Ht].
  - split; [discriminate|]. by intros [-> _].
  - rewrite IH. apply dec_stable in Ht. tauto.
Qed.

(** No token is found exactly when the text holds only commas and white
    space. *)
Lemma parseTokens_nil s :
  parseTokens s = [] <-> every_char blank_or_comma s = true.
Proof.
  unfold parseTokens. rewrite filter_nonempty_nil, Forall_fmap.
  change "," with (sep1 ",").
  rewrite <- (split_char_every Js.is_white_space "," s).
  apply Forall_proper; [|done]. intros seg. unfold compose. apply trim_empty.
Qed.

Lemma has_char_trimStart c s : has_char c (Js.trimStart s) = true -> has_char c s = true.
Proof.
  induction s as [|a r IH]; [done|]. cbn [Js.trimStart has_char].
  destruct (Js.is_white_space a); [|done]. intros H. by rewrite IH, orb_true_r.
Qed.

Lemma has_char_trimEnd c s : has_char c (Js.trimEnd s) = true -> has_char c s = true.
Proof.
  induction s as [|a r IH]; [done|]. cbn [Js.trimEnd has_char].
  destruct (Js.trimEnd r) as [|b t].
  - destruct (Js.is_white_space a); [done|]. cbn. rewrite orb_false_r. by intros ->.
  - cbn [has_char] in *. intros [->|H]%orb_true_iff; [done|].
    by rewrite IH, orb_true_r.
Qed.

(** X9.  Every token the ingestor loads is not empty, is trimmed and holds
    no comma. *)
Theorem parseTokens_clean (GITHUB_TOKENS_STRING token : string) :
  token ∈ parseTokens GITHUB_TOKENS_STRING ->
  token <> EmptyString /\ Js.trim token = token /\ has_char "," token = false.
Proof.
  unfold parseTokens. intros [Hne Hin]%list_elem_of_filter.
  apply list_elem_of_fmap in Hin as (seg & -> & Hseg).
  split; [done|]. split; [apply trim_idem|].
  pose proof (split_char_free "," GITHUB_TOKENS_STRING) as Hfree.
  change (sep1 ",") with "," in Hfree. rewrite Forall_forall in Hfree.
  apply Hfree in Hseg. apply not_true_iff_false. intros Hc. unfold Js.trim in Hc.
  apply has_char_trimEnd, has_char_trimStart in Hc. by rewrite Hc in Hseg.
Qed.

(** The property on a token string with blanks and an empty piece. *)
Lemma parseTokens_clean_witness :
  "tokB" <> EmptyString /\ Js.trim "tokB" = "tokB" /\ has_char "," "tokB" = false.
Proof.
  apply (parseTokens_clean " tokA, tokB ,,"). vm_compute.
  apply list_elem_of_further, list_elem_of_here.
Defined.

(** X10.  A run stops at the start, with an error on the console and no
    other effect (no request, no write), exactly when the token variable is
    not set or holds only commas and white space. *)
Theorem main_without_tokens
    (new_URL : string -> option URL)
    (JSON_parse_line : string -> option ExportLine)
    (listCommits : string -> ListCommitsRequest -> ApiResponse)
    (GITHUB_TOKENS_STRING : option string) (output_file : option FileContent)
    (input_lines : list string) :
  (GITHUB_TOKENS_STRING = None
   \/ exists s, GITHUB_TOKENS_STRING = Some s /\ every_char blank_or_comma s = true)
  <-> exists msg,
        Ingestor.main new_URL JSON_parse_line listCommits
          GITHUB_TOKENS_STRING output_file input_lines
        = [ConsoleLog "Starting GitHub commit history scraper..."; ConsoleError msg].
Proof.
  unfold Ingestor.main. split.
  - intros [->|(s & -> & Hs)]; [cbn; eauto|].
    destruct s as [|a r]; [cbn; eauto|]. cbn [Js.falsy_string default id].
    apply parseTokens_nil in Hs. rewrite Hs. cbn. eauto.
  - intros [msg Hrun]. destruct GITHUB_TOKENS_STRING as [s|]; [|by left].
    right. exists s. split; [done|]. apply parseTokens_nil.
    destruct s as [|a r]; [done|]. cbn [Js.falsy_string default id] in Hrun.
    destruct (parseTokens (String a r)) as [|t ts]; [done|]. exfalso.
    cbn [length Nat.eqb] in Hrun. apply (f_equal length) in Hrun.
    rewrite length_app in Hrun. cbn in Hrun. lia.
Qed.

(** The property on a token string of commas and blanks. *)
Lemma main_without_tokens_witness :
  exists msg,
    Ingestor.main Sample.new_URL Sample.JSON_parse_line Sample.listCommits_all
      (Some " , ,") None Sample.export_lines
    = [ConsoleLog "Starting GitHub commit history scraper..."; ConsoleError msg].
Proof.
  apply (proj1 (main_without_tokens Sample.new_URL Sample.JSON_parse_line
                  Sample.listCommits_all (Some " , ,") None Sample.export_lines)).
  right. exists " , ,". split; reflexivity.
Defined.

(** ** Runs of the ingestor *)

Import Resume.

Lemma on_console_quiet performed : Forall on_console performed -> Forall quiet performed.
Proof. intros H. eapply Forall_impl; [exact H|]. by intros [| | | |]. Qed.

Lemma on_console_requested performed :
  Forall on_console performed ->
  requested performed = [] /\ failed performed = [] /\ succeeded performed = [].
Proof.
  induction 1 as [|e rest He _ (IH1 & IH2 & IH3)]; [done|].
  unfold requested, failed, succeeded in *.
  destruct e; try done; cbn [omap list_omap]; by rewrite ?IH1, ?IH2, ?IH3.
Qed.

Lemma succeeded_app t1 t2 : succeeded (t1 ++ t2) = succeeded t1 ++ succeeded t2.
Proof. apply omap_app. Qed.

Section ResumeFacts.

Variable new_URL : string -> option URL.
Variable JSON_parse_line : string -> option ExportLine.
Variable listCommits : string -> ListCommitsRequest -> ApiResponse.

Local Abbreviation step := (Ingestor.step listCommits).
Local Abbreviation loop := (Ingestor.loop listCommits).
Local Abbreviation fetchAll := (Ingestor.fetchAll new_URL JSON_parse_line listCommits).
Local Abbreviation main := (Ingestor.main new_URL JSON_parse_line listCommits).
Local Abbreviation parseInputFile := (Ingestor.parseInputFile new_URL JSON_parse_line).

(** A property kept by the iterations on the repositories of the list holds
    when the loop ends. *)
Lemma loop_invariant_elem (P : State -> Prop) tokens repoDataList :
  (forall i r st, r ∈ repoDataList -> P st -> P (step tokens i r st)) ->
  forall i st, P st -> P (loop tokens i repoDataList st).
Proof.
  induction repoDataList as [|r rest IH]; intros Hstep i st HP; [done|].
  cbn [Ingestor.loop]. apply IH.
  - intros j r' st' Hr'. apply Hstep. apply elem_of_cons. by right.
  - apply Hstep; [|done]. apply elem_of_cons. by left.
Qed.

(** The loop of a run starts in a state loaded from the file. *)
Lemma fetchAll_start tokens file input_lines :
  exists st0,
    start_of file st0
    /\ fetchAll tokens file input_lines = loop tokens 0 (parseInputFile input_lines) st0.
Proof.
  unfold Ingestor.fetchAll. eexists. split; [|reflexivity].
  unfold start_of, loadProgress. cbn [allCommitsData processedRepos newReposProcessed trace].
  destruct file as [[data|]|]; cbn [JSON_parse allCommitsData processedRepos trace saved];
    repeat split; try done; rewrite ?Forall_app; repeat constructor.
Qed.

(** Induction on a run: a property of the start that every iteration keeps
    holds when the loop ends. *)
Lemma fetchAll_induction (P : State -> Prop) tokens file input_lines :
  (forall st0, start_of file st0 -> P st0) ->
  (forall i r st, r ∈ parseInputFile input_lines -> P st -> P (step tokens i r st)) ->
  P (fetchAll tokens file input_lines).
Proof.
  intros Hstart Hstep.
  destruct (fetchAll_start tokens file input_lines) as (st0 & Hst0 & ->).
  apply loop_invariant_elem; auto.
Qed.

(** With a token, a run is the loop followed by the final flush. *)
Lemma main_with_tokens s file input_lines :
  parseTokens s <> [] ->
  main (Some s) file input_lines
  = trace (fetchAll (parseTokens s) file input_lines)
    ++ final_flush (fetchAll (parseTokens s) file input_lines).
Proof.
  intros Htokens. unfold Ingestor.main.
  destruct s as [|a r]; [done|]. cbn [Js.falsy_string default id].
  destruct (parseTokens (String a r)) as [|t ts] eqn:Ht; [done|]. done.
Qed.

(** The repositories saved in the file stay marked, and none of them is
    asked about. *)
Lemma fetchAll_skips_saved tokens file input_lines :
  let st := fetchAll tokens file input_lines in
  (forall key, key ∈ map repository (saved file) -> key ∈ processedRepos st)
  /\ (forall key, key ∈ requested (trace st) -> key ∉ map repository (saved file)).
Proof.
  apply (fetchAll_induction
           (fun st =>
              (forall key, key ∈ map repository (saved file) -> key ∈ processedRepos st)
              /\ (forall key, key ∈ requested (trace st) ->
                              key ∉ map repository (saved file)))).
  - intros st0 (_ & Hproc & _ & Hconsole).
    destruct (on_console_requested _ Hconsole) as (Hreq & _ & _).
    rewrite Hreq, Hproc. split.
    + intros key Hkey. by apply elem_of_list_to_set.
    + intros key Hkey. by apply elem_of_nil in Hkey.
  - intros i r st _ [Hmarked Hfresh].
    destruct (step_cases listCommits tokens i r st) as [?|octokit found Hnew ?|octokit error Hnew ?];
      [done|..]; cbn [trace processedRepos]; rewrite requested_app;
      change (requested [fetch_log r; ListCommits octokit (request_for r) _; _])
        with [fullName r];
      (split;
       [intros key Hkey; apply Hmarked in Hkey; set_solver
       |intros key [Hkey|Hkey]%elem_of_app;
        [by apply Hfresh
        |apply list_elem_of_singleton in Hkey; subst key;
         intros Hin; by apply Hnew, Hmarked]]).
Qed.

(** Where the requests of the loop come from: the repository at position
    [j] of the list is asked about with the token of index [i + j] modulo
    the number of tokens. *)
Lemma loop_requests tokens repoDataList i st octokit request response :
  ListCommits octokit request response ∈ trace (loop tokens i repoDataList st) ->
  ListCommits octokit request response ∈ trace st
  \/ exists j r,
       repoDataList !! j = Some r
       /\ request = request_for r
       /\ octokit = nth ((i + j) mod length tokens) tokens EmptyString
       /\ response = listCommits octokit request.
Proof.
  revert i st. induction repoDataList as [|r rest IH]; intros i st Hin; [by left|].
  cbn [Ingestor.loop] in Hin. apply IH in Hin as [Hin|(j & r' & Hj & Hreq & Hoct & Hresp)].
  - unfold Ingestor.step in Hin. case_decide; [by left|].
    unfold fetchCommitsForRepo in Hin. fold (request_for r) in Hin.
    set (tok := nth (i mod length tokens) tokens EmptyString) in *.
    assert (ListCommits octokit request response ∈ trace st
            \/ ListCommits octokit request response
               = ListCommits tok (request_for r) (listCommits tok (request_for r)))
      as [?|Heq].
    { destruct (listCommits tok (request_for r)) as [found|error];
        cbn [trace] in Hin; apply elem_of_app in Hin as [Hin|Hin]; auto;
        repeat (apply elem_of_cons in Hin as [Hin|Hin]; [try discriminate Hin; auto|]);
        by apply elem_of_nil in Hin. }
    + by left.
    + injection Heq as -> -> ->. right. exists 0, r.
      rewrite Nat.add_0_r. done.
  - right. exists (S j), r'. replace (i + S j) with (S i + j) by lia. done.
Qed.

(** Where the entries of the collection come from. *)
Lemma fetchAll_entries tokens file input_lines entry :
  tokens <> [] ->
  entry ∈ allCommitsData (fetchAll tokens file input_lines) ->
  entry ∈ saved file
  \/ exists r octokit found,
       r ∈ parseInputFile input_lines
       /\ octokit ∈ tokens
       /\ listCommits octokit (request_for r) = Data found
       /\ entry = {| repository := fullName r; ecosystem := cleanedEcosystem r;
                     commits := map toCommitRecord found |}.
Proof.
  intros Htokens. revert entry.
  apply (fetchAll_induction
           (fun st => forall entry,
              entry ∈ allCommitsData st ->
              entry ∈ saved file
              \/ exists r octokit found,
                   r ∈ parseInputFile input_lines
                   /\ octokit ∈ tokens
                   /\ listCommits octokit (request_for r) = Data found
                   /\ entry = {| repository := fullName r;
                                 ecosystem := cleanedEcosystem r;
                                 commits := map toCommitRecord found |})).
  - intros st0 (Hall & _) entry. rewrite Hall. by left.
  - intros i r st Hr Hold entry. unfold Ingestor.step.
    case_decide; [apply Hold|].
    unfold fetchCommitsForRepo. fold (request_for r).
    set (tok := nth (i mod length tokens) tokens EmptyString).
    destruct (listCommits tok (request_for r)) as [found|error] eqn:Hresp;
      cbn [allCommitsData]; [|apply Hold].
    intros [Hin|Hin]%elem_of_app; [by apply Hold|].
    apply list_elem_of_singleton in Hin. right. exists r, tok, found.
    repeat split; try done.
    subst tok. apply list_elem_of_In, nth_In. apply Nat.mod_upper_bound.
    by destruct tokens.
Qed.

(** A repository marked processed has an entry or a failed fetch. *)
Lemma fetchAll_marked tokens file input_lines key :
  key ∈ processedRepos (fetchAll tokens file input_lines) ->
  key ∈ map repository (allCommitsData (fetchAll tokens file input_lines))
  \/ key ∈ failed (trace (fetchAll tokens file input_lines)).
Proof.
  revert key.
  apply (fetchAll_induction
           (fun st => forall key,
              key ∈ processedRepos st ->
              key ∈ map repository (allCommitsData st) \/ key ∈ failed (trace st))).
  - intros st0 (Hall & Hproc & _) key. rewrite Hall, Hproc.
    intros Hkey%elem_of_list_to_set. by left.
  - intros i r st _ Hold key.
    destruct (step_cases listCommits tokens i r st) as [?|octokit found ? ?|octokit error ? ?];
      [apply Hold|..]; cbn [processedRepos allCommitsData trace];
      rewrite failed_app; intros [Hkey|Hkey]%elem_of_union.
    + apply elem_of_singleton in Hkey. subst key. left.
      rewrite map_app. apply elem_of_app. right. by apply list_elem_of_singleton.
    + destruct (Hold key Hkey) as [?|?].
      * left. rewrite map_app. apply elem_of_app. by left.
      * right. apply elem_of_app. by left.
    + apply elem_of_singleton in Hkey. subst key. right.
      apply elem_of_app. right. by apply list_elem_of_singleton.
    + destruct (Hold key Hkey) as [?|?]; [by left|].
      right. apply elem_of_app. by left.
Qed.

(** The counter of the loop is the number of entries added, and the number
    of successful fetches. *)
Lemma fetchAll_count tokens file input_lines :
  let st := fetchAll tokens file input_lines in
  length (allCommitsData st) = length (saved file) + N.to_nat (newReposProcessed st)
  /\ N.to_nat (newReposProcessed st) = length (succeeded (trace st)).
Proof.
  apply (fetchAll_induction
           (fun st =>
              length (allCommitsData st)
              = length (saved file) + N.to_nat (newReposProcessed st)
              /\ N.to_nat (newReposProcessed st) = length (succeeded (trace st)))).
  - intros st0 (Hall & _ & Hnew & Hconsole).
    destruct (on_console_requested _ Hconsole) as (_ & _ & Hok).
    rewrite Hall, Hnew, Hok. simpl. lia.
  - intros i r st _ [Hlen Hok].
    destruct (step_cases listCommits tokens i r st) as [?|octokit found ? ?|octokit error ? ?];
      [done|..]; cbn [allCommitsData newReposProcessed trace];
      rewrite succeeded_app, !length_app.
    + change (succeeded [fetch_log r; ListCommits octokit (request_for r) (Data found); _])
        with [fullName r]. cbn [length]. lia.
    + change (succeeded [fetch_log r; ListCommits octokit (request_for r) (Failure error); _])
        with (@nil string). cbn [length]. lia.
Qed.

Lemma fetchAll_extends tokens file input_lines :
  saved file `prefix_of` allCommitsData (fetchAll tokens file input_lines).
Proof.
  apply (fetchAll_induction (fun st => saved file `prefix_of` allCommitsData st)).
  - intros st0 (Hall & _). by rewrite Hall.
  - intros i r st _ Hpre. etrans; [exact Hpre|apply step_extends].
Qed.

(** The loop sees the state only through its variables: two states with the
    same variables give the same variables and perform the same effects. *)
Lemma loop_same_variables tokens repoDataList i st1 st2 :
  same_variables st1 st2 ->
  exists performed,
    same_variables (loop tokens i repoDataList st1) (loop tokens i repoDataList st2)
    /\ trace (loop tokens i repoDataList st1) = trace st1 ++ performed
    /\ trace (loop tokens i repoDataList st2) = trace st2 ++ performed.
Proof.
  revert i st1 st2. induction repoDataList as [|r rest IH]; intros i st1 st2 Hsame.
  - exists []. by rewrite !app_nil_r.
  - cbn [Ingestor.loop].
    assert (exists ext,
               same_variables (step tokens i r st1) (step tokens i r st2)
               /\ trace (step tokens i r st1) = trace st1 ++ ext
               /\ trace (step tokens i r st2) = trace st2 ++ ext)
      as (ext & Hstep & Ht1 & Ht2).
    { destruct Hsame as (Hall & Hproc & Hnew). unfold Ingestor.step.
      rewrite Hproc, Hall, Hnew. case_decide; [exists []; by rewrite !app_nil_r|].
      destruct (fetchCommitsForRepo listCommits _ _ _) as [[commits|] performed];
        eexists; (split; [|split; reflexivity]); done. }
    destruct (IH (S i) _ _ Hstep) as (performed & Hloop & Hl1 & Hl2).
    exists (ext ++ performed). split; [done|].
    rewrite Hl1, Hl2, Ht1, Ht2, !app_assoc. done.
Qed.

End ResumeFacts.

Lemma succeeded_requested performed key :
  key ∈ succeeded performed -> key ∈ requested performed.
Proof.
  intros (e & He & Hkey)%list_elem_of_omap. apply list_elem_of_omap.
  exists e. split; [done|]. by destruct e as [| | | ? ? []|].
Qed.

Lemma disk_after_final file st :
  disk_after file (trace st ++ final_flush st) = Some (JsonText (allCommitsData st)).
Proof. by rewrite disk_after_app. Qed.

(** The two ways a run can go: it stops for want of a token, or it is the
    loop followed by the final flush. *)
Lemma main_cases new_URL JSON_parse_line listCommits GITHUB_TOKENS_STRING file input_lines :
  let performed :=
    Ingestor.main new_URL JSON_parse_line listCommits
      GITHUB_TOKENS_STRING file input_lines in
  (parseTokens (default EmptyString GITHUB_TOKENS_STRING) = []
   /\ exists msg,
      performed = [ConsoleLog "Starting GitHub commit history scraper..."; ConsoleError msg])
  \/ (parseTokens (default EmptyString GITHUB_TOKENS_STRING) <> []
      /\ performed =
           trace (Ingestor.fetchAll new_URL JSON_parse_line listCommits
                    (parseTokens (default EmptyString GITHUB_TOKENS_STRING))
                    file input_lines)
           ++ final_flush
                (Ingestor.fetchAll new_URL JSON_parse_line listCommits
                   (parseTokens (default EmptyString GITHUB_TOKENS_STRING))
                   file input_lines)).
Proof.
  cbn zeta. unfold Ingestor.main.
  destruct (Js.falsy_string GITHUB_TOKENS_STRING) eqn:Hfalsy.
  { left. split; [|eauto]. by destruct GITHUB_TOKENS_STRING as [[|c s]|]. }
  destruct (parseTokens (default EmptyString GITHUB_TOKENS_STRING)) as [|t ts] eqn:Ht;
    [left; eauto|].
  right. split; [done|]. cbn [length Nat.eqb]. done.
Qed.

(** C2, as amended.  When the fetch of a repository fails, the repository is
    in the processed set when the loop ends; no repository is asked about
    twice in a run, so it is not retried in this run; the file the run leaves
    has no entry for it; and the loop goes on: every repository of the input
    is marked processed, because the file had an entry for it or because the
    service was asked about it in this run.  The next run learns what is
    processed from that file alone: on the same export and with at least one
    token, whatever the tokens and the service, it asks about the repository
    again. *)
Theorem failed_fetch_skipped_for_the_run
    (new_URL : string -> option URL)
    (JSON_parse_line : string -> option ExportLine)
    (listCommits : string -> ListCommitsRequest -> ApiResponse)
    (GITHUB_TOKENS_STRING : option string) (output_file : option FileContent)
    (input_lines : list string)
    (k : nat) (octokit : string) (request : ListCommitsRequest) (error : string) :
  let performed :=
    Ingestor.main new_URL JSON_parse_line listCommits
      GITHUB_TOKENS_STRING output_file input_lines in
  let st :=
    Ingestor.fetchAll new_URL JSON_parse_line listCommits
      (parseTokens (default EmptyString GITHUB_TOKENS_STRING)) output_file input_lines in
  performed !! k = Some (ListCommits octokit request (Failure error)) ->
  request_key request ∈ processedRepos st
  /\ NoDup (requested performed)
  /\ (request_key request ∉ map repository (saved (disk_after output_file performed)))
  /\ (forall r, r ∈ parseInputFile new_URL JSON_parse_line input_lines ->
                fullName r ∈ processedRepos st
                /\ (fullName r ∈ map repository (saved output_file)
                    \/ fullName r ∈ requested performed))
  /\ (forall (listCommits' : string -> ListCommitsRequest -> ApiResponse)
             (GITHUB_TOKENS_STRING' : option string),
        parseTokens (default EmptyString GITHUB_TOKENS_STRING') <> [] ->
        request_key request
          ∈ requested (Ingestor.main new_URL JSON_parse_line listCommits'
                         GITHUB_TOKENS_STRING' (disk_after output_file performed)
                         input_lines)).
Proof.
  intros performed st Hk.
  destruct (main_cases new_URL JSON_parse_line listCommits
              GITHUB_TOKENS_STRING output_file input_lines) as [[_ [msg Hrun]]|[_ Hrun]];
    fold performed in Hrun; [rewrite Hrun in Hk; by destruct k as [|[|k]]|].
  fold st in Hrun.
  assert (trace st !! k = Some (ListCommits octokit request (Failure error))) as Hk'.
  { rewrite Hrun in Hk.
    destruct (decide (k < length (trace st))); [by rewrite lookup_app_l in Hk|].
    rewrite lookup_app_r in Hk by lia.
    by destruct (k - length (trace st)) as [|[|[|j]]]. }
  destruct (fetchAll_asked_once new_URL JSON_parse_line listCommits output_file
              (parseTokens (default EmptyString GITHUB_TOKENS_STRING)) input_lines)
    as (Hnodup & Hasked & _ & Hfailed).
  fold st in Hnodup, Hasked, Hfailed.
  assert (requested performed = requested (trace st)) as Hreq.
  { rewrite Hrun, requested_app. apply app_nil_r. }
  assert (disk_after output_file performed = Some (JsonText (allCommitsData st))) as Hdisk.
  { rewrite Hrun. apply disk_after_final. }
  assert (request_key request ∉ map repository (allCommitsData st)) as Hnone.
  { eapply Hfailed, failed_lookup, Hk'. }
  rewrite Hreq, Hdisk. cbn [saved]. split; [|split; [|split; [|split]]].
  - eapply Hasked, requested_lookup, Hk'.
  - done.
  - done.
  - intros r Hr. split.
    + by apply loop_marks_all.
    + apply (fetchAll_marked_for new_URL JSON_parse_line listCommits output_file).
      by apply loop_marks_all.
  - intros listCommits' GITHUB_TOKENS_STRING' Htokens'.
    assert (exists r, r ∈ parseInputFile new_URL JSON_parse_line input_lines
                      /\ request_key request = fullName r) as (r & Hr & Hkey).
    { apply list_elem_of_lookup_2 in Hk'. subst st.
      destruct (fetchAll_start new_URL JSON_parse_line listCommits
                  (parseTokens (default EmptyString GITHUB_TOKENS_STRING))
                  output_file input_lines) as (st0 & (_ & _ & _ & Hconsole) & Hst).
      rewrite Hst in Hk'.
      apply loop_requests in Hk' as [Hk'|(j & r & Hj & -> & _)].
      - rewrite Forall_forall in Hconsole. by apply Hconsole in Hk'.
      - exists r. split; [by eapply list_elem_of_lookup_2|done]. }
    destruct (main_cases new_URL JSON_parse_line listCommits' GITHUB_TOKENS_STRING'
                (Some (JsonText (allCommitsData st))) input_lines)
      as [[Hno _]|[_ Hrun']]; [done|].
    rewrite Hrun', requested_app, app_nil_r.
    destruct (fetchAll_marked_for new_URL JSON_parse_line listCommits'
                (Some (JsonText (allCommitsData st)))
                (parseTokens (default EmptyString GITHUB_TOKENS_STRING')) input_lines
                (fullName r)) as [Hsaved|Hasks].
    + by apply loop_marks_all.
    + cbn [saved] in Hsaved. by rewrite Hkey in Hnone.
    + by rewrite Hkey.
Qed.

(** C2, as stated, fails: a repository whose fetch failed is asked about
    again by the next run, because a run learns what is processed from the
    entries of the output file alone. *)
Lemma failed_fetch_retried_by_next_run :
  let run file :=
    Ingestor.main Sample.new_URL Sample.JSON_parse_line Sample.listCommits_beta
      (Some "tokA,tokB") file Sample.export_lines in
  let file1 := disk_after None (run None) in
  failed (run None) = ["octo/alpha"]
  /\ map repository (saved file1) = ["octo/beta"]
  /\ requested (run file1) = ["octo/alpha"]
  /\ failed (run file1) = ["octo/alpha"].
Proof. vm_compute. repeat split; reflexivity. Qed.

(** The amended claim on the sample export, where the fetch of [octo/alpha]
    fails; the next run, with another token and a service that knows every
    repository, asks about [octo/alpha] again. *)
Lemma failed_fetch_skipped_for_the_run_witness :
  let performed :=
    Ingestor.main Sample.new_URL Sample.JSON_parse_line Sample.listCommits_beta
      (Some "tokA,tokB") None Sample.export_lines in
  NoDup (requested performed)
  /\ ("octo/alpha" ∉ map repository (saved (disk_after None performed)))
  /\ "octo/alpha"
       ∈ requested (Ingestor.main Sample.new_URL Sample.JSON_parse_line
                      Sample.listCommits_all (Some "tokC")
                      (disk_after None performed) Sample.export_lines).
Proof.
  pose proof (failed_fetch_skipped_for_the_run
                Sample.new_URL Sample.JSON_parse_line Sample.listCommits_beta
                (Some "tokA,tokB") None Sample.export_lines
                5 "tokA"
                {| req_owner := "octo"; req_repo := "alpha";
                   since_days_ago := 30; per_page := 100 |}
                "HttpError: Not Found") as H.
  cbv zeta in H. destruct H as (_ & Hnodup & Hnone & _ & Hnext).
  - vm_compute. reflexivity.
  - split; [exact Hnodup|]. split; [exact Hnone|].
    apply (Hnext Sample.listCommits_all (Some "tokC")). vm_compute. discriminate.
Defined.

(** X11.  Resuming: a repository that has an entry in the output file is
    never asked about again. *)
Theorem saved_repository_not_fetched
    (new_URL : string -> option URL)
    (JSON_parse_line : string -> option ExportLine)
    (listCommits : string -> ListCommitsRequest -> ApiResponse)
    (GITHUB_TOKENS_STRING : option string) (output_file : option FileContent)
    (input_lines : list string) (key : string) :
  key ∈ map repository (saved output_file) ->
  key ∉ requested (Ingestor.main new_URL JSON_parse_line listCommits
                     GITHUB_TOKENS_STRING output_file input_lines).
Proof.
  intros Hkey.
  destruct (main_cases new_URL JSON_parse_line listCommits
              GITHUB_TOKENS_STRING output_file input_lines) as [[_ [msg ->]]|[_ ->]].
  - apply not_elem_of_nil.
  - rewrite requested_app, app_nil_r. intros Hreq.
    by apply (fetchAll_skips_saved new_URL JSON_parse_line listCommits) in Hreq.
Qed.

(** A file that holds [octo/beta], on the sample export that names it. *)
Lemma saved_repository_not_fetched_witness :
  "octo/beta" ∉
    requested (Ingestor.main Sample.new_URL Sample.JSON_parse_line Sample.listCommits_all
                 (Some "tokA")
                 (Some (JsonText [{| repository := "octo/beta"; ecosystem := "Bitcoin";
                                     commits := [] |}]))
                 Sample.export_lines).
Proof.
  apply saved_repository_not_fetched. cbn. apply list_elem_of_here.
Defined.

(** X12.  Every request of a run is about a repository of the export and is
    made with the token whose index is the position of the repository in the
    export modulo the number of tokens; it asks for the commits of the last
    30 days, 100 per page, and its outcome is what the service answered. *)
Theorem requests_rotate_tokens
    (new_URL : string -> option URL)
    (JSON_parse_line : string -> option ExportLine)
    (listCommits : string -> ListCommitsRequest -> ApiResponse)
    (GITHUB_TOKENS_STRING : option string) (output_file : option FileContent)
    (input_lines : list string)
    (octokit : string) (request : ListCommitsRequest) (response : ApiResponse) :
  let tokens := parseTokens (default EmptyString GITHUB_TOKENS_STRING) in
  ListCommits octokit request response
    ∈ Ingestor.main new_URL JSON_parse_line listCommits
        GITHUB_TOKENS_STRING output_file input_lines ->
  exists j r,
    parseInputFile new_URL JSON_parse_line input_lines !! j = Some r
    /\ request = {| req_owner := owner (cleanedRepo r); req_repo := repo (cleanedRepo r);
                    since_days_ago := 30; per_page := 100 |}
    /\ tokens !! (j mod length tokens) = Some octokit
    /\ response = listCommits octokit request.
Proof.
  intros tokens Hin.
  destruct (main_cases new_URL JSON_parse_line listCommits
              GITHUB_TOKENS_STRING output_file input_lines) as [[_ [msg Hrun]]|[Htokens Hrun]];
    rewrite Hrun in Hin.
  - repeat (apply elem_of_cons in Hin as [Hin|Hin]; [discriminate Hin|]).
    by apply elem_of_nil in Hin.
  - apply elem_of_app in Hin as [Hin|Hin].
    + destruct (fetchAll_start new_URL JSON_parse_line listCommits
                  tokens output_file input_lines) as (st0 & (_ & _ & _ & Hconsole) & Hst).
      fold tokens in Hin. rewrite Hst in Hin.
      apply loop_requests in Hin as [Hin|(j & r & Hj & -> & Hoct & Hresp)].
      * rewrite Forall_forall in Hconsole. by apply Hconsole in Hin.
      * exists j, r. split; [done|]. split; [done|]. split; [|done].
        cbn [Nat.add] in Hoct. subst octokit.
        assert (j mod length tokens < length tokens) as Hlt.
        { apply Nat.mod_upper_bound. fold tokens in Htokens. by destruct tokens. }
        apply list_lookup_lookup_total_lt in Hlt as Hlook.
        rewrite Hlook. f_equal. rewrite nth_lookup. unfold lookup_total, list_lookup_total.
        by rewrite Hlook.
    + repeat (apply elem_of_cons in Hin as [Hin|Hin]; [discriminate Hin|]).
      by apply elem_of_nil in Hin.
Qed.

(** The fetch of the first repository of the sample export, with two tokens:
    position 0, token 0. *)
Lemma requests_rotate_tokens_witness :
  exists j r,
    parseInputFile Sample.new_URL Sample.JSON_parse_line Sample.export_lines !! j = Some r
    /\ {| req_owner := "octo"; req_repo := "alpha"; since_days_ago := 30; per_page := 100 |}
       = {| req_owner := owner (cleanedRepo r); req_repo := repo (cleanedRepo r);
            since_days_ago := 30; per_page := 100 |}
    /\ parseTokens "tokA,tokB" !! (j mod length (parseTokens "tokA,tokB")) = Some "tokA"
    /\ Failure "HttpError: Not Found"
       = Sample.listCommits_beta "tokA"
           {| req_owner := "octo"; req_repo := "alpha"; since_days_ago := 30; per_page := 100 |}.
Proof.
  apply (requests_rotate_tokens Sample.new_URL Sample.JSON_parse_line Sample.listCommits_beta
           (Some "tokA,tokB") None Sample.export_lines).
  apply (list_elem_of_lookup_2 _ 5). vm_compute. reflexivity.
Defined.

(** X13.  Every entry of the file a run leaves was in the file before the
    run, or was made in the run for a repository of the export: its key is
    the owner and name of the repository, its label the cleaned label of the
    export, and its commits the records of what the service answered to one
    of the tokens. *)
Theorem entries_come_from_file_or_service
    (new_URL : string -> option URL)
    (JSON_parse_line : string -> option ExportLine)
    (listCommits : string -> ListCommitsRequest -> ApiResponse)
    (GITHUB_TOKENS_STRING : option string) (output_file : option FileContent)
    (input_lines : list string) (entry : RepoCommitHistory) :
  entry ∈ saved (disk_after output_file
                   (Ingestor.main new_URL JSON_parse_line listCommits
                      GITHUB_TOKENS_STRING output_file input_lines)) ->
  entry ∈ saved output_file
  \/ exists r octokit found,
       r ∈ parseInputFile new_URL JSON_parse_line input_lines
       /\ octokit ∈ parseTokens (default EmptyString GITHUB_TOKENS_STRING)
       /\ listCommits octokit
            {| req_owner := owner (cleanedRepo r); req_repo := repo (cleanedRepo r);
               since_days_ago := 30; per_page := 100 |} = Data found
       /\ entry = {| repository := owner (cleanedRepo r) +:+ "/" +:+ repo (cleanedRepo r);
                     ecosystem := cleanedEcosystem r;
                     commits := map toCommitRecord found |}.
Proof.
  destruct (main_cases new_URL JSON_parse_line listCommits
              GITHUB_TOKENS_STRING output_file input_lines) as [[_ [msg ->]]|[Htokens ->]].
  - intros Hin. by left.
  - rewrite disk_after_final. cbn [saved]. intros Hin.
    by apply fetchAll_entries in Hin.
Qed.

(** The entry the sample run makes for [octo/beta]. *)
Lemma entries_come_from_file_or_service_witness :
  let entry :=
    {| repository := "octo/beta"; ecosystem := "Bitcoin";
       commits := map toCommitRecord [Sample.commit_of "c1" (Some "2024-01-01T10:00:00Z");
                                      Sample.commit_of "c2" None] |} in
  entry ∈ saved None
  \/ exists r octokit found,
       r ∈ parseInputFile Sample.new_URL Sample.JSON_parse_line Sample.export_lines
       /\ octokit ∈ parseTokens "tokA,tokB"
       /\ Sample.listCommits_beta octokit
            {| req_owner := owner (cleanedRepo r); req_repo := repo (cleanedRepo r);
               since_days_ago := 30; per_page := 100 |} = Data found
       /\ entry = {| repository := owner (cleanedRepo r) +:+ "/" +:+ repo (cleanedRepo r);
                     ecosystem := cleanedEcosystem r;
                     commits := map toCommitRecord found |}.
Proof.
  apply (entries_come_from_file_or_service
           Sample.new_URL Sample.JSON_parse_line Sample.listCommits_beta
           (Some "tokA,tokB") None Sample.export_lines).
  apply (list_elem_of_lookup_2 _ 0). vm_compute. reflexivity.
Defined.

(** X14.  With at least one token, a run deals with the whole export: every
    repository of the export has an entry in the file the run leaves, or its
    fetch failed in this run. *)
Theorem every_repository_saved_or_failed
    (new_URL : string -> option URL)
    (JSON_parse_line : string -> option ExportLine)
    (listCommits : string -> ListCommitsRequest -> ApiResponse)
    (GITHUB_TOKENS_STRING : option string) (output_file : option FileContent)
    (input_lines : list string) (r : RepoData) :
  parseTokens (default EmptyString GITHUB_TOKENS_STRING) <> [] ->
  r ∈ parseInputFile new_URL JSON_parse_line input_lines ->
  let performed :=
    Ingestor.main new_URL JSON_parse_line listCommits
      GITHUB_TOKENS_STRING output_file input_lines in
  owner (cleanedRepo r) +:+ "/" +:+ repo (cleanedRepo r)
    ∈ map repository (saved (disk_after output_file performed))
  \/ owner (cleanedRepo r) +:+ "/" +:+ repo (cleanedRepo r) ∈ failed performed.
Proof.
  intros Htokens Hr.
  destruct (main_cases new_URL JSON_parse_line listCommits
              GITHUB_TOKENS_STRING output_file input_lines) as [[Hnone _]|[_ Hrun]];
    [done|].
  cbn zeta. rewrite Hrun, disk_after_final, failed_app, app_nil_r. cbn [saved].
  apply fetchAll_marked. by apply loop_marks_all.
Qed.

(** The sample export with the service that knows [octo/beta] only:
    [octo/alpha] is not in the file, its fetch failed. *)
Lemma every_repository_saved_or_failed_witness :
  let performed :=
    Ingestor.main Sample.new_URL Sample.JSON_parse_line Sample.listCommits_beta
      (Some "tokA,tokB") None Sample.export_lines in
  "octo/alpha" ∈ map repository (saved (disk_after None performed))
  \/ "octo/alpha" ∈ failed performed.
Proof.
  apply (every_repository_saved_or_failed
           Sample.new_URL Sample.JSON_parse_line Sample.listCommits_beta
           (Some "tokA,tokB") None Sample.export_lines
           {| cleanedRepo := {| owner := "octo"; repo := "alpha" |};
              cleanedEcosystem := "Ethereum" |}).
  - vm_compute. discriminate.
  - apply (list_elem_of_lookup_2 _ 0). vm_compute. reflexivity.
Defined.

(** X15.  With at least one token, the number the run reports as processed
    is the number of fetches that succeeded in the run, and the file the run
    leaves has that many entries more than the file had before. *)
Theorem processed_count_is_successful_fetches
    (new_URL : string -> option URL)
    (JSON_parse_line : string -> option ExportLine)
    (listCommits : string -> ListCommitsRequest -> ApiResponse)
    (GITHUB_TOKENS_STRING : option string) (output_file : option FileContent)
    (input_lines : list string) :
  parseTokens (default EmptyString GITHUB_TOKENS_STRING) <> [] ->
  let performed :=
    Ingestor.main new_URL JSON_parse_line listCommits
      GITHUB_TOKENS_STRING output_file input_lines in
  ConsoleLog (LF +:+ "Processed " +:+ Number_toString (N.of_nat (length (succeeded performed)))
              +:+ " new repositories in this session.") ∈ performed
  /\ length (saved (disk_after output_file performed))
     = length (saved output_file) + length (succeeded performed).
Proof.
  intros Htokens.
  destruct (main_cases new_URL JSON_parse_line listCommits
              GITHUB_TOKENS_STRING output_file input_lines) as [[Hnone _]|[_ Hrun]];
    [done|].
  cbn zeta. rewrite Hrun, disk_after_final, succeeded_app, app_nil_r. cbn [saved].
  destruct (fetchAll_count new_URL JSON_parse_line listCommits
              (parseTokens (default EmptyString GITHUB_TOKENS_STRING))
              output_file input_lines) as [Hlen Hnew].
  cbn zeta in Hlen, Hnew. split.
  - apply elem_of_app. right. rewrite <- Hnew, N2Nat.id. apply list_elem_of_here.
  - by rewrite Hlen, Hnew.
Qed.

(** The sample run from a file of one entry: one fetch succeeds. *)
Lemma processed_count_is_successful_fetches_witness :
  let prior :=
    Some (JsonText [{| repository := "octo/zeta"; ecosystem := "Bitcoin";
                       commits := [Sample.commit_at None] |}]) in
  let performed :=
    Ingestor.main Sample.new_URL Sample.JSON_parse_line Sample.listCommits_beta
      (Some "tokA,tokB") prior Sample.export_lines in
  ConsoleLog (LF +:+ "Processed " +:+ Number_toString (N.of_nat (length (succeeded performed)))
              +:+ " new repositories in this session.") ∈ performed
  /\ length (saved (disk_after prior performed))
     = length (saved prior) + length (succeeded performed).
Proof.
  apply (processed_count_is_successful_fetches
           Sample.new_URL Sample.JSON_parse_line Sample.listCommits_beta
           (Some "tokA,tokB")).
  vm_compute. discriminate.
Defined.

(** X16.  A file that [JSON.parse] rejects is read as no file.  With at
    least one token, the run on such a file is the run without a file with
    two more console messages, the second a warning, after the message about
    the tokens: the requests are the same and so is the file the run
    leaves. *)
Theorem unparsable_file_read_as_absent
    (new_URL : string -> option URL)
    (JSON_parse_line : string -> option ExportLine)
    (listCommits : string -> ListCommitsRequest -> ApiResponse)
    (GITHUB_TOKENS_STRING : option string) (input_lines : list string) :
  parseTokens (default EmptyString GITHUB_TOKENS_STRING) <> [] ->
  let run file :=
    Ingestor.main new_URL JSON_parse_line listCommits GITHUB_TOKENS_STRING file input_lines in
  (exists tokens_loaded rest,
      run None
      = [ConsoleLog "Starting GitHub commit history scraper..."; ConsoleLog tokens_loaded]
        ++ rest
      /\ run (Some Malformed)
         = [ConsoleLog "Starting GitHub commit history scraper..."; ConsoleLog tokens_loaded]
           ++ [ConsoleLog "Found existing output file. Loading previous progress...";
               ConsoleWarn "Could not parse existing output file. Starting from scratch."]
           ++ rest)
  /\ requested (run (Some Malformed)) = requested (run None)
  /\ disk_after (Some Malformed) (run (Some Malformed)) = disk_after None (run None).
Proof.
  intros Htokens. cbn zeta.
  destruct (main_cases new_URL JSON_parse_line listCommits
              GITHUB_TOKENS_STRING None input_lines) as [[Hnone _]|[_ Hrun1]];
    [done|].
  destruct (main_cases new_URL JSON_parse_line listCommits
              GITHUB_TOKENS_STRING (Some Malformed) input_lines) as [[Hnone _]|[_ Hrun2]];
    [done|].
  rewrite Hrun1, Hrun2, !disk_after_final, !requested_app, !app_nil_r.
  set (tokens := parseTokens (default EmptyString GITHUB_TOKENS_STRING)).
  unfold Ingestor.fetchAll. cbn [loadProgress JSON_parse allCommitsData processedRepos trace].
  match goal with
  | |- context [Ingestor.loop listCommits tokens 0 ?l ?s1] =>
      match goal with
      | |- context [Ingestor.loop listCommits tokens 0 l ?s2] =>
          lazymatch s1 with
          | s2 => fail
          | _ =>
              destruct (loop_same_variables listCommits tokens l 0 s1 s2)
                as (performed & (Hall & _ & Hnew) & Ht1 & Ht2); [done|]
          end
      end
  end.
  cbn [trace] in Ht1, Ht2. unfold final_flush. rewrite Ht1, Ht2, Hall, Hnew.
  split; [|split].
  - eexists _, _. split.
    + rewrite <- !app_assoc. cbn [app]. reflexivity.
    + rewrite <- !app_assoc. cbn [app]. reflexivity.
  - rewrite !requested_app. reflexivity.
  - reflexivity.
Qed.

(** The property on the sample export. *)
Lemma unparsable_file_read_as_absent_witness :
  let run file :=
    Ingestor.main Sample.new_URL Sample.JSON_parse_line Sample.listCommits_beta
      (Some "tokA,tokB") file Sample.export_lines in
  requested (run (Some Malformed)) = requested (run None)
  /\ disk_after (Some Malformed) (run (Some Malformed)) = disk_after None (run None).
Proof.
  apply (unparsable_file_read_as_absent
           Sample.new_URL Sample.JSON_parse_line Sample.listCommits_beta
           (Some "tokA,tokB") Sample.export_lines).
  vm_compute. discriminate.
Defined.

(** X17.  When the output file has an entry for every repository of the
    export, a run asks the service nothing and leaves the entries of the
    file as they are. *)
Theorem complete_file_nothing_to_fetch
    (new_URL : string -> option URL)
    (JSON_parse_line : string -> option ExportLine)
    (listCommits : string -> ListCommitsRequest -> ApiResponse)
    (GITHUB_TOKENS_STRING : option string) (output_file : option FileContent)
    (input_lines : list string) :
  (forall r, r ∈ parseInputFile new_URL JSON_parse_line input_lines ->
             owner (cleanedRepo r) +:+ "/" +:+ repo (cleanedRepo r)
               ∈ map repository (saved output_file)) ->
  let performed :=
    Ingestor.main new_URL JSON_parse_line listCommits
      GITHUB_TOKENS_STRING output_file input_lines in
  requested performed = []
  /\ saved (disk_after output_file performed) = saved output_file.
Proof.
  intros Hcomplete.
  destruct (main_cases new_URL JSON_parse_line listCommits
              GITHUB_TOKENS_STRING output_file input_lines) as [[_ [msg Hrun]]|[Htokens Hrun]];
    cbn zeta; rewrite Hrun; [done|].
  rewrite disk_after_final, requested_app, app_nil_r. cbn [saved].
  set (tokens := parseTokens (default EmptyString GITHUB_TOKENS_STRING)) in *.
  assert (requested (trace (Ingestor.fetchAll new_URL JSON_parse_line listCommits
                              tokens output_file input_lines)) = []) as Hnone.
  { destruct (requested _) as [|key keys] eqn:Hreq; [done|]. exfalso.
    assert (key ∈ requested (trace (Ingestor.fetchAll new_URL JSON_parse_line listCommits
                                      tokens output_file input_lines))) as Hkey.
    { rewrite Hreq. apply list_elem_of_here. }
    pose proof Hkey as Hnew.
    apply (fetchAll_skips_saved new_URL JSON_parse_line listCommits) in Hnew.
    apply list_elem_of_omap in Hkey as (e & He & Hsome).
    destruct e as [| | |octokit request response|]; try discriminate Hsome.
    injection Hsome as <-.
    destruct (fetchAll_start new_URL JSON_parse_line listCommits
                tokens output_file input_lines) as (st0 & (_ & _ & _ & Hconsole) & Hst).
    rewrite Hst in He.
    apply loop_requests in He as [He|(j & r & Hj & -> & _)].
    - rewrite Forall_forall in Hconsole. by apply Hconsole in He.
    - apply Hnew, Hcomplete. by eapply list_elem_of_lookup_2. }
  split; [done|].
  destruct (fetchAll_count new_URL JSON_parse_line listCommits
              tokens output_file input_lines) as [Hlen Hnew].
  cbn zeta in Hlen, Hnew.
  assert (succeeded (trace (Ingestor.fetchAll new_URL JSON_parse_line listCommits
                              tokens output_file input_lines)) = []) as Hsucc.
  { destruct (succeeded _) as [|key keys] eqn:Hs; [done|]. exfalso.
    assert (key ∈ requested (trace (Ingestor.fetchAll new_URL JSON_parse_line listCommits
                                      tokens output_file input_lines))) as Hkey.
    { apply succeeded_requested. rewrite Hs. apply list_elem_of_here. }
    rewrite Hnone in Hkey. by apply elem_of_nil in Hkey. }
  rewrite Hsucc in Hnew. cbn [length] in Hnew. rewrite Hnew, Nat.add_0_r in Hlen.
  destruct (fetchAll_extends new_URL JSON_parse_line listCommits
              tokens output_file input_lines) as [more Hmore].
  rewrite Hmore in Hlen |- *. rewrite length_app in Hlen.
  destruct more; [by rewrite app_nil_r|]. cbn [length] in Hlen. lia.
Qed.

(** The file the sample run leaves when the service knows every repository
    is complete for the sample export. *)
Lemma complete_file_nothing_to_fetch_witness :
  let file :=
    Some (JsonText [{| repository := "octo/alpha"; ecosystem := "Ethereum"; commits := [] |};
                    {| repository := "octo/beta"; ecosystem := "Bitcoin"; commits := [] |}]) in
  let performed :=
    Ingestor.main Sample.new_URL Sample.JSON_parse_line Sample.listCommits_all
      (Some "tokA") file Sample.export_lines in
  requested performed = []
  /\ saved (disk_after file performed) = saved file.
Proof.
  apply (complete_file_nothing_to_fetch
           Sample.new_URL Sample.JSON_parse_line Sample.listCommits_all (Some "tokA")).
  intros r Hr.
  assert (parseInputFile Sample.new_URL Sample.JSON_parse_line Sample.export_lines
          = [{| cleanedRepo := {| owner := "octo"; repo := "alpha" |};
                cleanedEcosystem := "Ethereum" |};
             {| cleanedRepo := {| owner := "octo"; repo := "beta" |};
                cleanedEcosystem := "Bitcoin" |}]) as Hparsed
    by (vm_compute; reflexivity).
  rewrite Hparsed in Hr.
  apply elem_of_cons in Hr as [->|Hr]; [apply (list_elem_of_lookup_2 _ 0); reflexivity|].
  apply elem_of_cons in Hr as [->|Hr]; [apply (list_elem_of_lookup_2 _ 1); reflexivity|].
  by apply elem_of_nil in Hr.
Defined.

(** ** Further properties of the summarizer *)

Lemma dated_iff Date_toISOString commit :
  dated Date_toISOString commit = true
  <-> (forall d, date commit = Some d -> d <> EmptyString -> is_Some (Date_toISOString d)).
Proof.
  unfold dated, commit_day.
  destruct (date commit) as [[|ch d]|]; cbn.
  - split; [|done]. by intros _ d [= <-].
  - destruct (Date_toISOString (String ch d)) eqn:Hd; split; try done.
    + intros _ d' [= <-] _. by rewrite Hd.
    + intros H. destruct (H (String ch d)) as [iso Hiso]; [done..|]. congruence.
  - split; [|done]. by intros _ d.
Qed.

(** X18.  On a collection file, the summarizer ends normally exactly when
    every date that is present and not empty is one the platform accepts; it
    then writes the daily summary and the ecosystem summary, in this order,
    and no other file; otherwise it ends with the exception of
    [toISOString] and writes no file.  On a file that [JSON.parse] rejects
    it ends with the exception of the parser and writes no file. *)
Theorem summarizeData_ends_normally_iff
    (Date_toISOString : string -> option string) (data : list RepoCommitHistory) :
  let run := Summarizer.summarizeData Date_toISOString (Some (JsonText data)) in
  let unparsable := Summarizer.summarizeData Date_toISOString (Some Malformed) in
  (Summarizer.completion run = Ok tt
   <-> forall commit d,
         commit ∈ all_commits data -> date commit = Some d -> d <> EmptyString ->
         is_Some (Date_toISOString d))
  /\ (Summarizer.completion run = Ok tt ->
      exists byDay totals overallTotal,
        Summarizer.writes run
        = [(Summarizer.DAILY_OUTPUT_PATH, JDaily byDay);
           (Summarizer.ECO_OUTPUT_PATH, JEcosystem totals overallTotal)])
  /\ (Summarizer.completion run <> Ok tt ->
      Summarizer.completion run = Throw RangeError /\ Summarizer.writes run = [])
  /\ Summarizer.completion unparsable = Throw SyntaxError
  /\ Summarizer.writes unparsable = [].
Proof.
  cbn zeta. split; [|split; [|split; [|split; reflexivity]]];
    unfold Summarizer.summarizeData; cbn [JSON_parse bind];
    rewrite commitsByDay_flat;
    destruct (forallb (dated Date_toISOString) (all_commits data)) eqn:Hdated;
    cbn [bind]; try destruct (Summarizer.commitsByEcosystem data) as [byEco total];
    cbn [Summarizer.completion].
  - split; [|done]. intros _ commit d Hin.
    rewrite forallb_forall in Hdated.
    apply (dated_iff Date_toISOString commit), Hdated. by apply list_elem_of_In.
  - split; [done|]. intros Hall.
    assert (forallb (dated Date_toISOString) (all_commits data) = true) as Hyes; [|congruence].
    apply forallb_forall. intros commit Hin. apply dated_iff.
    intros d. apply Hall. by apply list_elem_of_In.
  - intros _. by exists (fold_left bumpDay (omap (day_of Date_toISOString)
                                              (all_commits data)) ∅), byEco, total.
  - done.
  - done.
  - done.
Qed.

Lemma addTotal_keys o label n key :
  is_Some (addTotal o label n !! key)
  <-> is_Some (o !! key) \/ (key = label /\ label <> "__proto__").
Proof.
  unfold addTotal, JsObject.set.
  destruct (String.eqb label "__proto__") eqn:Hproto.
  - apply String.eqb_eq in Hproto. subst label.
    destruct (eco_falsy _); split; auto; intros [?|[_ ?]]; done.
  - apply String.eqb_neq in Hproto.
    destruct (eco_falsy _); rewrite ?lookup_insert_is_Some; split.
    + intros [->|[_ [->|[_ H]]]]; auto.
    + intros [H|[-> _]]; [|auto].
      destruct (decide (label = key)); auto.
    + intros [->|[_ H]]; auto.
    + intros [H|[-> _]]; [|auto].
      destruct (decide (label = key)); auto.
Qed.

Lemma fold_addRepo_keys data o t key :
  is_Some (fst (fold_left Summarizer.addRepo data (o, t)) !! key)
  <-> is_Some (o !! key) \/ (key ∈ map ecosystem data /\ key <> "__proto__").
Proof.
  revert o t. induction data as [|r data IH]; intros o t.
  - cbn. split; [auto|]. intros [?|[?%elem_of_nil ?]]; done.
  - cbn [fold_left map]. rewrite addRepo_addTotal, IH, addTotal_keys, elem_of_cons.
    split.
    + intros [[?|[-> ?]]|[? ?]]; auto.
    + intros [?|[[->|?] ?]]; auto.
Qed.

(** X19.  The keys of [totals] are the labels of the collection, except
    [__proto__], under which nothing is stored: a label whose repositories
    have no commit has a key too. *)
Theorem ecosystem_keys_are_labels (data : list RepoCommitHistory) (label : string) :
  is_Some (fst (Summarizer.commitsByEcosystem data) !! label)
  <-> label ∈ map ecosystem data /\ label <> "__proto__".
Proof.
  unfold Summarizer.commitsByEcosystem. rewrite fold_addRepo_keys, lookup_empty.
  split; [|auto]. intros [H|H]; [by destruct H|done].
Qed.

Lemma sum_of_counts_insert o day n :
  o !! day = None ->
  sum_of_counts (<[day := Count n]> o) = (fun a => (a + n)%N) <$> sum_of_counts o.
Proof.
  intros Hfresh. unfold sum_of_counts.
  rewrite map_fold_insert_L; [|intros j1 j2 [] [] []; intros; f_equal; lia|done].
  by destruct (map_fold _ _ o).
Qed.

Lemma sum_of_counts_bumpDay o day t :
  ordinary_key day -> day_numbers o ->
  sum_of_counts o = Some t -> sum_of_counts (bumpDay o day) = Some (t + 1)%N.
Proof.
  intros Hk Ho Hsum. rewrite bumpDay_ordinary by done. unfold day_count.
  destruct (o !! day) as [v|] eqn:Hv.
  - destruct (Ho _ _ Hv) as [m ->].
    rewrite <- insert_delete_eq, sum_of_counts_insert by apply lookup_delete_eq.
    revert Hsum. unfold sum_of_counts at 1.
    rewrite (map_fold_delete_L _ _ day (Count m) o);
      [|intros j1 j2 [] [] []; intros; f_equal; lia|done].
    fold (sum_of_counts (delete day o)).
    destruct (sum_of_counts (delete day o)) as [t0|]; [|done].
    intros [= <-]. simpl. f_equal. lia.
  - rewrite sum_of_counts_insert, Hsum by done. done.
Qed.

Lemma sum_of_counts_fold_bumpDay days o t :
  Forall ordinary_key days -> day_numbers o -> sum_of_counts o = Some t ->
  sum_of_counts (fold_left bumpDay days o) = Some (t + N.of_nat (length days))%N.
Proof.
  revert o t. induction days as [|d days IH]; intros o t Hk Ho Hsum.
  - cbn. rewrite Hsum. f_equal. lia.
  - inversion_clear Hk as [|? ? Hd Hds]. cbn [fold_left length].
    rewrite (IH _ (t + 1)%N) by auto using bumpDay_numbers, sum_of_counts_bumpDay.
    f_equal. lia.
Qed.

Lemma length_omap_day_of Date_toISOString cs :
  forallb (dated Date_toISOString) cs = true ->
  length (omap (day_of Date_toISOString) cs) = length (filter (fun c => has_date c = true) cs).
Proof.
  induction cs as [|c cs IH]; [done|]. cbn [forallb]. intros [Hc Hcs]%andb_true_iff.
  change (omap (day_of Date_toISOString) (c :: cs))
    with (match day_of Date_toISOString c with
          | Some day => day :: omap (day_of Date_toISOString) cs
          | None => omap (day_of Date_toISOString) cs
          end).
  rewrite filter_cons.
  assert (day_of Date_toISOString c = None /\ has_date c = false
          \/ exists day, day_of Date_toISOString c = Some day /\ has_date c = true)
    as [[-> ->]|(day & -> & ->)].
  { revert Hc. unfold dated, day_of, commit_day, has_date.
    destruct (Js.falsy_string (date c)); [by left|].
    destruct (Date_toISOString _); [|done]. right. eauto. }
  - rewrite decide_False by done. by apply IH.
  - rewrite decide_True by done. cbn [length]. f_equal. by apply IH.
Qed.

(** X20.  When the platform's ISO form starts with the year, the counts of
    the daily summary add up to the number of commits whose date is present
    and not empty: each such commit is counted under exactly one day. *)
Theorem daily_counts_add_up
    (Date_toISOString : string -> option string) (data : list RepoCommitHistory)
    (byDay : gmap string DayCount) :
  (forall d iso, Date_toISOString d = Some iso ->
                 exists ch r, iso = String ch r /\ year_start ch = true) ->
  Summarizer.WriteFileSync Summarizer.DAILY_OUTPUT_PATH (JDaily byDay)
    ∈ Summarizer.effects
        (Summarizer.summarizeData Date_toISOString (Some (JsonText data))) ->
  sum_of_counts byDay
  = Some (N.of_nat (length (filter (fun commit => has_date commit = true)
                                   (all_commits data)))).
Proof.
  intros Hiso. unfold Summarizer.summarizeData. cbn [JSON_parse bind].
  rewrite commitsByDay_flat.
  destruct (forallb (dated Date_toISOString) (all_commits data)) eqn:Hdated; cbn [bind].
  - destruct (Summarizer.commitsByEcosystem data) as [byEco total].
    cbn [Summarizer.effects app]. intros Hin.
    repeat (apply elem_of_cons in Hin as [Hin|Hin]; [try discriminate Hin|]);
      [|by apply elem_of_nil in Hin].
    injection Hin as ->.
    rewrite (sum_of_counts_fold_bumpDay _ ∅ 0%N).
    + by rewrite (length_omap_day_of _ _ Hdated).
    + by apply omap_day_of_ordinary.
    + intros key v. by rewrite lookup_empty.
    + done.
  - cbn [Summarizer.effects]. intros Hin.
    repeat (apply elem_of_cons in Hin as [Hin|Hin]; [try discriminate Hin|]).
    by apply elem_of_nil in Hin.
Qed.

(** The collection with a dated and an undated commit: the counts add up
    to 1. *)
Lemma daily_counts_add_up_witness :
  sum_of_counts (<["2024-01-01" := Count 1]> ∅) = Some 1%N.
Proof.
  apply (daily_counts_add_up Sample.Date_toISOString dated_and_undated).
  - apply sample_Date_iso_year.
  - apply (list_elem_of_lookup_2 _ 1). vm_compute. reflexivity.
Defined.

(** The collection of two labels that are ordinary keys. *)
Lemma overallTotal_sum_of_ordinary_totals_witness :
  Summarizer.sum_of_values (<["Bitcoin" := Sum 1]> (<["Ethereum" := Sum 2]> ∅)) = Some 3%N
  /\ 3%N = N.of_nat (length (all_commits
             [{| repository := "octo/alpha"; ecosystem := "Ethereum";
                 commits := [Sample.commit_at None; Sample.commit_at None] |};
              {| repository := "octo/beta"; ecosystem := "Bitcoin";
                 commits := [Sample.commit_at None] |}])).
Proof.
  apply (overallTotal_sum_of_ordinary_totals Sample.Date_toISOString).
  - repeat constructor.
  - cbn. do 3 right. left. vm_compute. reflexivity.
Defined.

(** X22.  With labels that are ordinary keys, reordering the entries of the
    collection, or the commits of an entry, changes no count: the run ends
    the same way and prints the same messages, it writes the same files in
    the same order, each day of the daily summary has the same count, each
    label of the ecosystem summary has the same total, and the overall total
    is the same.  Nothing is said of the order of the keys in the files. *)
Theorem reordered_input_same_counts
    (Date_toISOString : string -> option string) (data data' : list RepoCommitHistory) :
  (forall d iso, Date_toISOString d = Some iso ->
                 exists ch r, iso = String ch r /\ year_start ch = true) ->
  Forall (fun r => ordinary_key (ecosystem r)) data ->
  reordered data data' ->
  let run := Summarizer.summarizeData Date_toISOString (Some (JsonText data)) in
  let run' := Summarizer.summarizeData Date_toISOString (Some (JsonText data')) in
  Summarizer.completion run' = Summarizer.completion run
  /\ printed run' = printed run
  /\ map fst (Summarizer.writes run') = map fst (Summarizer.writes run)
  /\ (forall path byDay,
        (path, JDaily byDay) ∈ Summarizer.writes run ->
        exists byDay',
          (path, JDaily byDay') ∈ Summarizer.writes run'
          /\ forall day, byDay' !! day = byDay !! day)
  /\ (forall path totals overallTotal,
        (path, JEcosystem totals overallTotal) ∈ Summarizer.writes run ->
        exists totals',
          (path, JEcosystem totals' overallTotal) ∈ Summarizer.writes run'
          /\ forall label, totals' !! label = totals !! label).
Proof.
  intros Hiso Hk Hre. cbn zeta.
  rewrite <- (summarizeData_reordered Date_toISOString data data' Hiso Hk Hre).
  repeat split; eauto.
Qed.

(** Two entries under ordinary labels, in both orders: the count of a day
    and the total of a label. *)
Lemma reordered_input_same_counts_witness :
  let first :=
    {| repository := "octo/alpha"; ecosystem := "Ethereum";
       commits := [Sample.commit_at (Some "2024-01-01T10:00:00Z"); Sample.commit_at None] |} in
  let second :=
    {| repository := "octo/beta"; ecosystem := "Bitcoin";
       commits := [Sample.commit_at (Some "2024-01-02T00:00:00Z")] |} in
  exists totals',
    (Summarizer.ECO_OUTPUT_PATH, JEcosystem totals' 3)
      ∈ Summarizer.writes
          (Summarizer.summarizeData Sample.Date_toISOString (Some (JsonText [second; first])))
    /\ forall label,
         totals' !! label
         = (<["Bitcoin" := Sum 1]> (<["Ethereum" := Sum 2]> ∅) : gmap string EcoTotal) !! label.
Proof.
  cbv zeta.
  eapply (reordered_input_same_counts Sample.Date_toISOString
            [{| repository := "octo/alpha"; ecosystem := "Ethereum";
                commits := [Sample.commit_at (Some "2024-01-01T10:00:00Z");
                            Sample.commit_at None] |};
             {| repository := "octo/beta"; ecosystem := "Bitcoin";
                commits := [Sample.commit_at (Some "2024-01-02T00:00:00Z")] |}]).
  - apply sample_Date_iso_year.
  - repeat constructor.
  - apply reordered_entries. apply perm_swap.
  - apply (list_elem_of_lookup_2 _ 1). vm_compute. reflexivity.
Defined.
